(** * We All Explain: the client-side reconciliation of a shared activity

    A verification development for three parts of the repository:

    - the push-event handlers of the activity page (the [useEffect] block that
      registers [rating_added], [comment_added], [comment_voted],
      [participant_joined] and [participant_left] with the web-socket
      service), each of which hands a functional updater to [setActivity];
    - the projections of the results view (the [stats] object and the
      map-dot click handlers);
    - the admin-subdomain [middleware].

    JavaScript arrays are lists, [null] is [None], strings are [string] and
    strict equality [===] on strings is decidable equality.  JavaScript
    numbers (rating positions, axis bounds, the sums and quotients of the
    statistics) are IEEE 754 binary64 doubles: the primitive [float] with
    its rounded [+] and [/]. *)

From Stdlib Require Import ZArith Floats Ascii String.
From Stdlib Require Uint63.
From stdpp Require Import base decidable option list strings pretty gmap.

Open Scope string_scope.
Open Scope list_scope.

(** ** Data model *)

(** Modelled from the spec: the type declarations of [@/models/Activity]
    ([Rating], [Comment], [WeAllExplainActivity] and the participant entry)
    are imported by the sources but not part of them.  The records carry the
    fields that the code reads ([userId], [position.x], [position.y], [id],
    [username], [text], [timestamp], [voteCount], [status], ...) and that the
    data-model section of the specification lists.  [voteCount] is optional:
    the view reads it as [comment.voteCount || 0]. *)
Module Position.
Record t : Type := mk { x : float; y : float }.
End Position.

Module Rating.
Record t : Type := mk {
  userId : string;
  username : string;
  position : Position.t;
  timestamp : string
}.
End Rating.

Module Comment.
Record t : Type := mk {
  id : string;
  userId : string;
  username : string;
  text : string;
  timestamp : string;
  voteCount : option nat
}.

(** [comment.voteCount || 0] *)
Definition votes (c : t) : nat := default 0 (voteCount c).
End Comment.

Module Participant.
Record t : Type := mk { id : string; username : string }.
End Participant.

Module Axis.
Record t : Type := mk { label : string; min : float; max : float }.
End Axis.

Inductive Status : Type := active | completed.

Record Activity : Type := mkActivity {
  id : string;
  title : string;
  urlName : string;
  mapQuestion : string;
  commentQuestion : string;
  xAxis : Axis.t;
  yAxis : Axis.t;
  status : Status;
  participants : list Participant.t;
  ratings : list Rating.t;
  comments : list Comment.t
}.

(** The object spreads [{ ...prev, ratings: r }], [{ ...prev, comments: c }]
    and [{ ...prev, participants: p }]: a copy of [prev] with one field
    replaced. *)
Definition with_ratings (prev : Activity) (r : list Rating.t) : Activity :=
  {| id := id prev; title := title prev; urlName := urlName prev;
     mapQuestion := mapQuestion prev; commentQuestion := commentQuestion prev;
     xAxis := xAxis prev; yAxis := yAxis prev; status := status prev;
     participants := participants prev;
     ratings := r;
     comments := comments prev |}.

Definition with_comments (prev : Activity) (c : list Comment.t) : Activity :=
  {| id := id prev; title := title prev; urlName := urlName prev;
     mapQuestion := mapQuestion prev; commentQuestion := commentQuestion prev;
     xAxis := xAxis prev; yAxis := yAxis prev; status := status prev;
     participants := participants prev;
     ratings := ratings prev;
     comments := c |}.

Definition with_participants (prev : Activity) (p : list Participant.t) : Activity :=
  {| id := id prev; title := title prev; urlName := urlName prev;
     mapQuestion := mapQuestion prev; commentQuestion := commentQuestion prev;
     xAxis := xAxis prev; yAxis := yAxis prev; status := status prev;
     participants := p;
     ratings := ratings prev;
     comments := comments prev |}.

(** ** Array primitives *)

(** [Array.prototype.findIndex]: the index of the first element that
    satisfies [p], counted from [k]; [-1] when there is none. *)
Fixpoint findIndexFrom {A : Type} (p : A -> bool) (l : list A) (k : Z) : Z :=
  match l with
  | [] => (-1)%Z
  | a :: l' => if p a then k else findIndexFrom p l' (k + 1)%Z
  end.

Definition findIndex {A : Type} (p : A -> bool) (l : list A) : Z :=
  findIndexFrom p l 0%Z.

(** [arr.push(v)] on a freshly built array. *)
Definition push {A : Type} (l : list A) (v : A) : list A := l ++ [v].

(** [arr[i] = v] for an integer index [0 <= i].  The handlers only write at
    an index that [findIndex] returned, which is inside the array, so the
    growth of a JavaScript array written past its end never happens. *)
Definition assign {A : Type} (l : list A) (i : Z) (v : A) : list A :=
  <[Z.to_nat i := v]> l.

(** ** The push-event handlers of the activity page *)

(** The payloads the web-socket service delivers, by event name. *)
Inductive Event : Type :=
  | rating_added (rating : Rating.t)
  | comment_added (comment : Comment.t)
  | comment_voted (comment : Comment.t)
  | participant_joined (participant : Participant.t)
  | participant_left (participantId : string).

(** The functional updaters passed to [setActivity], one per event.  [prev]
    is the current value of the [activity] state, [None] for [null]. *)
Definition rating_added_updater (rating : Rating.t)
    (prev : option Activity) : option Activity :=
  match prev with
  | None => None
  | Some prev =>
      let updatedRatings :=
        filter (fun r => Rating.userId r <> Rating.userId rating) (ratings prev) in
      let updatedRatings := push updatedRatings rating in
      Some (with_ratings prev updatedRatings)
  end.

Definition same_user_and_text (comment c : Comment.t) : bool :=
  bool_decide (Comment.userId c = Comment.userId comment)
  && bool_decide (Comment.text c = Comment.text comment).

Definition comment_added_updater (comment : Comment.t)
    (prev : option Activity) : option Activity :=
  match prev with
  | None => None
  | Some prev =>
      let existingCommentIndex :=
        findIndex (same_user_and_text comment) (comments prev) in
      if (0 <=? existingCommentIndex)%Z then
        let updatedComments := assign (comments prev) existingCommentIndex comment in
        Some (with_comments prev updatedComments)
      else
        let updatedComments :=
          filter (fun c => Comment.userId c <> Comment.userId comment) (comments prev) in
        let updatedComments := push updatedComments comment in
        Some (with_comments prev updatedComments)
  end.

Definition comment_voted_updater (comment : Comment.t)
    (prev : option Activity) : option Activity :=
  match prev with
  | None => prev
  | Some prev =>
      let updatedComments :=
        map (fun c => if bool_decide (Comment.id c = Comment.id comment)
                      then comment else c) (comments prev) in
      Some (with_comments prev updatedComments)
  end.

Definition participant_joined_updater (participant : Participant.t)
    (prev : option Activity) : option Activity :=
  match prev with
  | None => None
  | Some prev =>
      let updatedParticipants :=
        filter (fun p => Participant.id p <> Participant.id participant)
               (participants prev) in
      let updatedParticipants := push updatedParticipants participant in
      Some (with_participants prev updatedParticipants)
  end.

Definition participant_left_updater (participantId : string)
    (prev : option Activity) : option Activity :=
  match prev with
  | None => None
  | Some prev =>
      Some (with_participants prev
              (filter (fun p => Participant.id p <> participantId)
                      (participants prev)))
  end.

(** The updater an event runs on the [activity] state. *)
Definition updater (e : Event) : option Activity -> option Activity :=
  match e with
  | rating_added rating => rating_added_updater rating
  | comment_added comment => comment_added_updater comment
  | comment_voted comment => comment_voted_updater comment
  | participant_joined participant => participant_joined_updater participant
  | participant_left participantId => participant_left_updater participantId
  end.

(** The React state of the page that the handlers write: [activity],
    [userRating] and [userComment].  [userId] is the identity the effect
    closed over. *)
Record PageState : Type := mkPage {
  activity : option Activity;
  userRating : option Rating.t;
  userComment : option Comment.t
}.

(** A handler as registered with [webSocketService.on]: it calls
    [setActivity] with the event's updater and, for the user's own rating or
    comment, [setUserRating] or [setUserComment]. *)
Definition handle (userId : string) (e : Event) (st : PageState) : PageState :=
  let st' := {| activity := updater e (activity st);
                userRating := userRating st;
                userComment := userComment st |} in
  match e with
  | rating_added rating =>
      if bool_decide (Rating.userId rating = userId)
      then {| activity := activity st';
              userRating := Some rating;
              userComment := userComment st' |}
      else st'
  | comment_added comment =>
      if bool_decide (Comment.userId comment = userId)
      then {| activity := activity st';
              userRating := userRating st';
              userComment := Some comment |}
      else st'
  | _ => st'
  end.

(** Events applied in delivery order. *)
Definition handle_all (userId : string) (es : list Event) (st : PageState) : PageState :=
  foldl (fun s e => handle userId e s) st es.

(** ** The projections of the results view *)

(** [Array.prototype.find]: the first element that satisfies [p]. *)
Fixpoint find {A : Type} (p : A -> bool) (l : list A) : option A :=
  match l with
  | [] => None
  | a :: l' => if p a then Some a else find p l'
  end.

(** The number of times [find] calls its predicate on [l]: once per element
    up to and including the first that satisfies it. *)
Fixpoint find_calls {A : Type} (p : A -> bool) (l : list A) : nat :=
  match l with
  | [] => 0
  | a :: l' => if p a then 1 else S (find_calls p l')
  end.

(** [Array.prototype.includes] on an array of strings. *)
Fixpoint includes (l : list string) (v : string) : bool :=
  match l with
  | [] => false
  | a :: l' => if bool_decide (a = v) then true else includes l' v
  end.

(** The selection state of [ResultsView]. *)
Record ViewState : Type := mkView {
  hoveredCommentId : option string;
  selectedCommentId : option string;
  visibleCommentIds : list string;
  mobilePopupComment : option string
}.

(** [activity.comments.find(c => c.userId === userId)] *)
Definition comment_of_user (a : Activity) (userId : string) : option Comment.t :=
  find (fun c => bool_decide (Comment.userId c = userId)) (comments a).

Definition handleMapDotClick (a : Activity) (userId : string) (v : ViewState) : ViewState :=
  match comment_of_user a userId with
  | Some comment =>
      if includes (visibleCommentIds v) (Comment.id comment)
      then {| hoveredCommentId := hoveredCommentId v;
              selectedCommentId := Some (Comment.id comment);
              visibleCommentIds := visibleCommentIds v;
              mobilePopupComment := mobilePopupComment v |}
      else v
  | None => v
  end.

Definition handleMobileMapDotTap (a : Activity) (userId : string) (v : ViewState) : ViewState :=
  match comment_of_user a userId with
  | Some comment =>
      if includes (visibleCommentIds v) (Comment.id comment)
      then {| hoveredCommentId := hoveredCommentId v;
              selectedCommentId := selectedCommentId v;
              visibleCommentIds := visibleCommentIds v;
              mobilePopupComment := Some (Comment.id comment) |}
      else v
  | None => v
  end.

(** The predicate calls one map-dot click spends in [find]. *)
Definition lookup_calls (a : Activity) (userId : string) : nat :=
  find_calls (fun c => bool_decide (Comment.userId c = userId)) (comments a).

(** [arr.reduce((sum, r) => sum + f(r), 0)] *)
Definition reduce_sum (f : Rating.t -> float) (l : list Rating.t) : float :=
  foldl (fun sum r => (sum + f r)%float) 0%float l.

(** [arr.length] as a number: the double of an integer, exact for every
    array length (an array has fewer than 2^32 entries). *)
Definition number_of_nat (n : nat) : float :=
  PrimFloat.of_uint63 (Uint63.of_Z (Z.of_nat n)).

Record Stats : Type := mkStats {
  totalParticipants : nat;
  totalRatings : nat;
  totalComments : nat;
  averagePosition : option Position.t
}.

Definition stats (a : Activity) : Stats :=
  {| totalParticipants := length (participants a);
     totalRatings := length (ratings a);
     totalComments := length (comments a);
     averagePosition :=
       if (0 <? length (ratings a))%nat then
         Some {| Position.x :=
                   (reduce_sum (fun r => Position.x (Rating.position r)) (ratings a)
                    / number_of_nat (length (ratings a)))%float;
                 Position.y :=
                   (reduce_sum (fun r => Position.y (Rating.position r)) (ratings a)
                    / number_of_nat (length (ratings a)))%float |}
       else None |}.

(** ** The admin-subdomain middleware *)

(** [s.split('.')]: the pieces of [s] between the occurrences of [sep];
    always at least one piece. *)
Fixpoint split (sep : ascii) (s : string) : list string :=
  match s with
  | EmptyString => [EmptyString]
  | String c s' =>
      if bool_decide (c = sep) then EmptyString :: split sep s'
      else match split sep s' with
           | [] => [String c EmptyString]
           | w :: ws => String c w :: ws
           end
  end.

(** [s.startsWith(p)] *)
Definition startsWith (s p : string) : bool := String.prefix p s.

(** [s.includes(sub)] *)
Fixpoint str_includes (s sub : string) : bool :=
  String.prefix sub s ||
  match s with
  | EmptyString => false
  | String _ s' => str_includes s' sub
  end.

(** [a || b] on strings: [b] when [a] is missing or empty. *)
Definition or_else (a : option string) (b : string) : string :=
  match a with
  | Some (String c s) => String c s
  | _ => b
  end.

(** What the middleware reads of a request: the path of [nextUrl] and the
    [host] header, which may be absent. *)
Record NextRequest : Type := mkRequest {
  pathname : string;
  host : option string
}.

Inductive NextResponse : Type :=
  | redirect (pathname : string)      (* NextResponse.redirect(url) *)
  | response (status : nat)           (* new NextResponse(null, { status }) *)
  | next.                             (* NextResponse.next() *)

(** [ADMIN_SUBDOMAIN] is the value of [process.env.ADMIN_SUBDOMAIN], [None]
    when the variable is not set. *)
Definition middleware (ADMIN_SUBDOMAIN : option string) (request : NextRequest) : NextResponse :=
  let hostname := or_else (host request) "" in
  let subdomain := hd "" (split "."%char hostname) in
  let adminSubdomain := or_else ADMIN_SUBDOMAIN "admin" in
  let isAdminRoute := startsWith (pathname request) "/admin" in
  let isLocalAdmin :=
    bool_decide (hostname = "admin.localhost:3000")
    || bool_decide (hostname = "admin.localhost") in
  let isAdminSubdomain := bool_decide (subdomain = adminSubdomain) || isLocalAdmin in
  if isAdminSubdomain && negb isAdminRoute then
    redirect ("/admin" ++ pathname request)
  else
    let isLocalhost :=
      str_includes hostname "localhost" && negb (str_includes hostname "admin.") in
    if isAdminRoute then
      if negb isAdminSubdomain && negb isLocalhost then response 404
      else next
    else next.

(** ** Properties the theorems are stated with *)

(** At most one rating and at most one comment per user. *)
Definition one_per_user (a : Activity) : Prop :=
  NoDup (map Rating.userId (ratings a)) /\ NoDup (map Comment.userId (comments a)).

(** No two participants share an id. *)
Definition unique_participants (a : Activity) : Prop :=
  NoDup (map Participant.id (participants a)).

(** The comment an event delivers, if it delivers one. *)
Definition delivered_comment (e : Event) : option Comment.t :=
  match e with
  | comment_added comment | comment_voted comment => Some comment
  | _ => None
  end.

(** The stored vote count of a comment id never goes down in the step that
    event [e] makes from the loaded activity [a]: a comment before and a
    comment after the step that carry the same id compare by [<=]. *)
Definition votes_monotone (a : Activity) (e : Event) : Prop :=
  forall a' c c',
    updater e (Some a) = Some a' ->
    c ∈ comments a -> c' ∈ comments a' ->
    Comment.id c = Comment.id c' ->
    Comment.votes c <= Comment.votes c'.

(** The server's count is at least the stored count of the comments whose id
    the delivered comment carries. *)
Definition delivered_votes_not_lower (a : Activity) (e : Event) : Prop :=
  forall comment c,
    delivered_comment e = Some comment ->
    c ∈ comments a ->
    Comment.id c = Comment.id comment ->
    Comment.votes c <= Comment.votes comment.

(** A [comment_voted] payload has the author of the stored comments whose id
    it carries; no condition on the other events. *)
Definition vote_keeps_author (a : Activity) (e : Event) : Prop :=
  match e with
  | comment_voted comment =>
      forall c, c ∈ comments a ->
        Comment.id c = Comment.id comment ->
        Comment.userId c = Comment.userId comment
  | _ => True
  end.

(** The sum of a list of doubles taken from the left, starting from 0, each
    addition rounded. *)
Definition sum_left (l : list float) : float := foldl PrimFloat.add 0%float l.

(** A bound [k] on the predicate calls of a map-dot lookup that holds
    whatever the activity: what constant-time resolution would give. *)
Definition lookup_bounded_by (k : nat) : Prop :=
  forall (a : Activity) (userId : string), lookup_calls a userId <= k.

(** ** Sample data *)

(** An activity as [createActivity] drafts it: active, nobody in it yet. *)
Definition new_activity : Activity :=
  {| id := "act1"; title := "Demo"; urlName := "demo";
     mapQuestion := "Where do you stand?"; commentQuestion := "Why?";
     xAxis := Axis.mk "x" 0%float 1%float; yAxis := Axis.mk "y" 0%float 1%float;
     status := active; participants := []; ratings := []; comments := [] |}.

Definition comment_c1 (voteCount : option nat) : Comment.t :=
  Comment.mk "c1" "a" "Ann" "hi" "2024-05-01T10:00:00Z" voteCount.

Definition comment_c2 : Comment.t :=
  Comment.mk "c2" "b" "Bob" "yo" "2024-05-01T10:01:00Z" None.

(** A payload that carries the id of Ann's comment and Bob's userId. *)
Definition comment_c1_by_b : Comment.t :=
  Comment.mk "c1" "b" "Bob" "yo" "2024-05-01T10:01:00Z" (Some 1).

Definition rating_of (userId : string) (x y : float) : Rating.t :=
  Rating.mk userId userId (Position.mk x y) "2024-05-01T09:59:00Z".

Definition two_commenters : Activity :=
  with_comments new_activity [comment_c1 None; comment_c2].

Definition voted_three_times : Activity :=
  with_comments new_activity [comment_c1 (Some 3)].

Definition idle_page : PageState :=
  {| activity := Some new_activity; userRating := None; userComment := None |}.

(** The comment of the [i]-th member of a crowd: user "u<i>", comment "c<i>". *)
Definition crowd_comment (i : nat) : Comment.t :=
  Comment.mk ("c" +:+ pretty i) ("u" +:+ pretty i) ("user " +:+ pretty i)
             "me too" "2024-05-01T10:00:00Z" None.

(** An activity in which [n] users have commented, one comment each. *)
Definition crowd (n : nat) : Activity :=
  with_comments new_activity (map crowd_comment (seq 0 n)).

(** Two ratings, at (0,0) and at (2,2). *)
Definition two_ratings : Activity :=
  with_ratings new_activity [rating_of "a" 0%float 0%float; rating_of "b" 2%float 2%float].

(** ** The rest of the activity page *)

(** *** Screens *)

(** What [navigateToScreen] asks of the browser: scroll the element with an
    id into view ([document.getElementById(id)?.scrollIntoView], nothing
    happens when no such element is mounted), or scroll the window to the
    top. *)
Inductive Scroll : Type :=
  | scrollIntoView (targetId : string)
  | scrollTo_top.

Definition screens : list string :=
  [""; "mapping-screen"; "comment-screen"; "results-screen"].

(** [screens[screenIndex]], [None] for [undefined]. *)
Definition screen_at (screenIndex : Z) : option string :=
  if (screenIndex <? 0)%Z then None else screens !! Z.to_nat screenIndex.

(** [navigateToScreen]: the scroll it asks for and the new [currentScreen]. *)
Definition navigateToScreen (screenIndex : Z) : Scroll * Z :=
  let targetId := screen_at screenIndex in
  match targetId with
  | Some (String c s) => (scrollIntoView (String c s), screenIndex)
  | _ => (scrollTo_top, screenIndex)
  end.

(** The gestures that navigate: the two swipe callbacks and the arrow
    buttons of the title, mapping and comment screens. *)
Inductive Gesture : Type :=
  | onSwipeUp
  | onSwipeDown
  | titleArrow
  | mappingArrow
  | commentArrow.

(** One gesture on a page whose activity has the given status: the scroll
    asked for, if any, and [currentScreen] afterwards. *)
Definition gesture (st : Status) (g : Gesture) (currentScreen : Z) : option Scroll * Z :=
  let navigated (r : Scroll * Z) := (Some (fst r), snd r) in
  match g with
  | onSwipeUp =>
      if (currentScreen <? 3)%Z then navigated (navigateToScreen (currentScreen + 1))
      else (None, currentScreen)
  | onSwipeDown =>
      if (0 <? currentScreen)%Z then navigated (navigateToScreen (currentScreen - 1))
      else (None, currentScreen)
  | titleArrow =>
      match st with
      | completed => navigated (navigateToScreen 3)
      | active => navigated (navigateToScreen 1)
      end
  | mappingArrow => navigated (navigateToScreen 2)
  | commentArrow => navigated (navigateToScreen 3)
  end.

(** [currentScreen] after a sequence of gestures. *)
Definition gestures (st : Status) (gs : list Gesture) (currentScreen : Z) : Z :=
  foldl (fun c g => snd (gesture st g c)) currentScreen gs.

(** *** The user session *)

(** [user_${Date.now()}_${Math.random().toString(36).substr(2, 9)}]: [now]
    is the clock and [random36] the nine characters cut from the random
    number, which the runtime supplies. *)
Definition makeUserId (now : Z) (random36 : string) : string :=
  "user_" +:+ pretty now +:+ "_" +:+ random36.

(** The effect that initialises the session, on [localStorage] as a map
    from keys to strings.  [newUsername] is what
    [ValidationService.generateRandomUsername()] returns (the service is not
    in the sources).  The result is the storage afterwards and the [userId]
    and [username] states. *)
Definition initSession (now : Z) (random36 newUsername : string)
    (localStorage : gmap string string) : gmap string string * (string * string) :=
  let storedUserId := localStorage !! "userId" in
  let storedUsername := localStorage !! "username" in
  match storedUserId, storedUsername with
  | Some (String c1 s1), Some (String c2 s2) =>
      (localStorage, (String c1 s1, String c2 s2))
  | _, _ =>
      let newUserId := makeUserId now random36 in
      (<["username" := newUsername]> (<["userId" := newUserId]> localStorage),
       (newUserId, newUsername))
  end.

(** *** Loading the snapshot *)

(** The page state with the two flags the load writes. *)
Record Page : Type := mkLoad {
  state : PageState;
  loading : bool;
  error : option string
}.

(** The page as [useState] initialises it. *)
Definition initial_page : Page :=
  {| state := {| activity := None; userRating := None; userComment := None |};
     loading := true;
     error := None |}.

(** [r => r.userId === userId] over the ratings of a snapshot. *)
Definition rating_of_user (a : Activity) (userId : string) : option Rating.t :=
  find (fun r => bool_decide (Rating.userId r = userId)) (ratings a).

(** A completed run of [loadActivity]; [fetched] is the activity that
    [ActivityService.getActivity] resolved with, [None] when it threw. *)
Definition loadActivity (userId : string) (fetched : option Activity) (p : Page) : Page :=
  match fetched with
  | Some activityData =>
      let existingRating := rating_of_user activityData userId in
      let existingComment := comment_of_user activityData userId in
      {| state :=
           {| activity := Some activityData;
              userRating := match existingRating with
                            | Some r => Some r
                            | None => userRating (state p)
                            end;
              userComment := match existingComment with
                             | Some c => Some c
                             | None => userComment (state p)
                             end |};
         loading := false;
         error := None |}
  | None =>
      {| state := state p;
         loading := false;
         error := Some "Failed to load activity. Please try again." |}
  end.

(** [userRating] is the first rating of the user in the loaded activity. *)
Definition rating_in_sync (userId : string) (st : PageState) : Prop :=
  exists a, activity st = Some a /\ userRating st = rating_of_user a userId.

(** [userComment] is the comment of the user in the loaded activity, which
    holds at most one comment per user. *)
Definition comment_in_sync (userId : string) (st : PageState) : Prop :=
  exists a, activity st = Some a
    /\ NoDup (map Comment.userId (comments a))
    /\ userComment st = comment_of_user a userId.

(** The event is not a vote. *)
Definition not_a_vote (e : Event) : Prop :=
  match e with
  | comment_voted _ => False
  | _ => True
  end.

(** ** The rest of the results view *)

(** The comment the mobile popup shows:
    [mobilePopupComment && activity.comments.find(c => c.id === mobilePopupComment)],
    nothing when the id is [null] or empty or no comment has it. *)
Definition popupComment (a : Activity) (v : ViewState) : option Comment.t :=
  match mobilePopupComment v with
  | Some (String c s) =>
      find (fun c' => bool_decide (Comment.id c' = String c s)) (comments a)
  | _ => None
  end.

(** ** The activity service *)

(** The JSON body of every reply, [{ success, data?, error? }]. *)
Module ApiResponse.
Record t (T : Type) : Type := mk {
  success : bool;
  data : option T;
  error : option string
}.
Arguments mk {T}.
Arguments success {T}.
Arguments data {T}.
Arguments error {T}.
End ApiResponse.

(** What [await fetch(...)] and [await response.json()] give: the promise of
    [fetch] rejects, or a response arrives with [ok], [status] and a body
    that parses or does not. *)
Inductive Fetched (T : Type) : Type :=
  | fetch_rejected (reason : string)
  | fetch_response (ok : bool) (status : nat) (json : string + ApiResponse.t T).
Arguments fetch_rejected {T}.
Arguments fetch_response {T}.

(** What a service call throws: an [Error] it built itself, or the reason a
    promise of the runtime rejected with, rethrown by the [catch]. *)
Inductive Thrown : Type :=
  | Error (message : string)
  | Rejected (reason : string).

Definition getActivity (r : Fetched Activity) : Thrown + Activity :=
  match r with
  | fetch_rejected reason => inl (Rejected reason)
  | fetch_response ok _ json =>
      if negb ok then inl (Error "Failed to fetch activity")
      else match json with
           | inl reason => inl (Rejected reason)
           | inr data =>
               match ApiResponse.success data, ApiResponse.data data with
               | true, Some d => inr d
               | _, _ => inl (Error (or_else (ApiResponse.error data) "Activity not found"))
               end
           end
  end.

Definition getActivityByUrlName (r : Fetched Activity) : Thrown + option Activity :=
  match r with
  | fetch_rejected reason => inl (Rejected reason)
  | fetch_response ok status json =>
      if negb ok then
        if bool_decide (status = 404) then inr None
        else inl (Error "Failed to fetch activity")
      else match json with
           | inl reason => inl (Rejected reason)
           | inr data =>
               match ApiResponse.success data, ApiResponse.data data with
               | true, Some d => inr (Some d)
               | _, _ => inr None
               end
           end
  end.

(** [@/utils/urlUtils] is not in the sources: the four functions of
    [UrlUtils] that the service calls are parameters. *)
Class UrlUtils : Type := {
  cleanActivityName : string -> string;
  isValidActivityName : string -> bool;
  hasRouteConflict : string -> bool;
  generateUniqueActivityName : string -> list string -> string
}.

(** The URL name [createActivity] posts, from the form's [title] and
    [urlName]; [getActivities] is what [this.getActivities()] gives if it is
    called. *)
Definition createActivity_urlName `{UrlUtils} (formTitle : string) (formUrlName : option string)
    (getActivities : Thrown + list Activity) : Thrown + string :=
  match formUrlName with
  | Some (String c s) =>
      let cleanedUrlName := cleanActivityName (String c s) in
      if negb (isValidActivityName cleanedUrlName) then
        inl (Error "Invalid activity URL name")
      else if hasRouteConflict cleanedUrlName then
        inl (Error "Activity URL name conflicts with system routes")
      else inr cleanedUrlName
  | _ =>
      match getActivities with
      | inl thrown => inl thrown
      | inr existingActivities =>
          let existingUrlNames := map urlName existingActivities in
          inr (generateUniqueActivityName formTitle existingUrlNames)
      end
  end.

(** The URL name [updateActivity] puts in the PATCH body of activity
    [activityId]; [None] when the body has no [urlName]. *)
Definition updateActivity_urlName `{UrlUtils} (activityId : string) (formUrlName : option string)
    (getActivities : Thrown + list Activity) : Thrown + option string :=
  match formUrlName with
  | Some (String c s) =>
      let cleanedUrlName := cleanActivityName (String c s) in
      if negb (isValidActivityName cleanedUrlName) then
        inl (Error "Invalid activity URL name")
      else if hasRouteConflict cleanedUrlName then
        inl (Error "Activity URL name conflicts with system routes")
      else
        match getActivities with
        | inl thrown => inl thrown
        | inr existingActivities =>
            let existingUrlNames :=
              map urlName (filter (fun a => id a <> activityId) existingActivities) in
            if includes existingUrlNames cleanedUrlName then
              inl (Error "Activity URL name already exists")
            else
              match cleanedUrlName with
              | String _ _ => inr (Some cleanedUrlName)
              | EmptyString => inr None
              end
        end
  | _ => inr None
  end.

(** The form an activity is created or updated from. *)
Module ActivityFormData.
Record t : Type := mk {
  title : string;
  urlName : option string;
  mapQuestion : string;
  xAxisLabel : string;
  xAxisMin : float;
  xAxisMax : float;
  yAxisLabel : string;
  yAxisMin : float;
  yAxisMax : float;
  commentQuestion : string
}.
End ActivityFormData.

(** The body of the PATCH request of [updateActivity]; [urlName] is [None]
    when the body has no such key. *)
Module ActivityData.
Record t : Type := mk {
  title : string;
  mapQuestion : string;
  xAxis : Axis.t;
  yAxis : Axis.t;
  commentQuestion : string;
  urlName : option string
}.
End ActivityData.

(** [updateActivity]: [getActivities] is what [this.getActivities()] gives
    if it is called, [fetch] the reply to the PATCH request for an id and a
    body.  The first component of the result is the PATCH request that was
    sent, [None] when the call threw before sending one; the second is what
    the call throws or returns. *)
Definition updateActivity `{UrlUtils} (activityId : string) (formData : ActivityFormData.t)
    (getActivities : Thrown + list Activity)
    (fetch : string -> ActivityData.t -> Fetched Activity)
    : option (string * ActivityData.t) * (Thrown + Activity) :=
  match updateActivity_urlName activityId (ActivityFormData.urlName formData) getActivities with
  | inl thrown => (None, inl thrown)
  | inr urlName =>
      let activityData :=
        {| ActivityData.title := ActivityFormData.title formData;
           ActivityData.mapQuestion := ActivityFormData.mapQuestion formData;
           ActivityData.xAxis :=
             Axis.mk (ActivityFormData.xAxisLabel formData)
                     (ActivityFormData.xAxisMin formData)
                     (ActivityFormData.xAxisMax formData);
           ActivityData.yAxis :=
             Axis.mk (ActivityFormData.yAxisLabel formData)
                     (ActivityFormData.yAxisMin formData)
                     (ActivityFormData.yAxisMax formData);
           ActivityData.commentQuestion := ActivityFormData.commentQuestion formData;
           ActivityData.urlName := urlName |} in
      (Some (activityId, activityData),
       match fetch activityId activityData with
       | fetch_rejected reason => inl (Rejected reason)
       | fetch_response ok _ json =>
           if negb ok then inl (Error "Failed to update activity")
           else match json with
                | inl reason => inl (Rejected reason)
                | inr data =>
                    match ApiResponse.success data, ApiResponse.data data with
                    | true, Some d => inr d
                    | _, _ =>
                        inl (Error (or_else (ApiResponse.error data)
                                            "Failed to update activity"))
                    end
                end
       end)
  end.

(** A stand-in for [UrlUtils], for examples only: names are used as typed,
    a name is valid when it is not empty, "admin" is a system route, and
    the generated name is the title. *)
Definition sample_urlUtils : UrlUtils :=
  {| cleanActivityName := fun name => name;
     isValidActivityName := fun name => negb (bool_decide (name = ""));
     hasRouteConflict := fun name => bool_decide (name = "admin");
     generateUniqueActivityName := fun title _ => title |}.

(** A form that renames an activity to [name], and one that leaves the
    URL name out. *)
Definition rename_form (name : option string) : ActivityFormData.t :=
  {| ActivityFormData.title := "Retro"; ActivityFormData.urlName := name;
     ActivityFormData.mapQuestion := "How did it go?";
     ActivityFormData.xAxisLabel := "x"; ActivityFormData.xAxisMin := 0%float;
     ActivityFormData.xAxisMax := 1%float;
     ActivityFormData.yAxisLabel := "y"; ActivityFormData.yAxisMin := 0%float;
     ActivityFormData.yAxisMax := 1%float;
     ActivityFormData.commentQuestion := "Why?" |}.

(** A server that answers every PATCH with the error [message]. *)
Definition server_refuses (message : string) : string -> ActivityData.t -> Fetched Activity :=
  fun _ _ => fetch_response true 200 (inr (ApiResponse.mk false None (Some message))).

(** Two stored activities, "act1" under the URL name "demo" and "act2"
    under "retro". *)
Definition second_activity : Activity :=
  {| id := "act2"; title := "Retro"; urlName := "retro";
     mapQuestion := "How did it go?"; commentQuestion := "Why?";
     xAxis := Axis.mk "x" 0%float 1%float; yAxis := Axis.mk "y" 0%float 1%float;
     status := active; participants := []; ratings := []; comments := [] |}.

(** ** Frames *)

(** Every field of [a'] but [comments] is the field of [a]. *)
Definition same_except_comments (a a' : Activity) : Prop :=
  id a' = id a /\ title a' = title a /\ urlName a' = urlName a
  /\ mapQuestion a' = mapQuestion a /\ commentQuestion a' = commentQuestion a
  /\ xAxis a' = xAxis a /\ yAxis a' = yAxis a /\ status a' = status a
  /\ participants a' = participants a /\ ratings a' = ratings a.

(** Every field of [a'] but [participants] is the field of [a]. *)
Definition same_except_participants (a a' : Activity) : Prop :=
  id a' = id a /\ title a' = title a /\ urlName a' = urlName a
  /\ mapQuestion a' = mapQuestion a /\ commentQuestion a' = commentQuestion a
  /\ xAxis a' = xAxis a /\ yAxis a' = yAxis a /\ status a' = status a
  /\ ratings a' = ratings a /\ comments a' = comments a.

(** Every field of [a'] but [ratings] is the field of [a]. *)
Definition same_except_ratings (a a' : Activity) : Prop :=
  id a' = id a /\ title a' = title a /\ urlName a' = urlName a
  /\ mapQuestion a' = mapQuestion a /\ commentQuestion a' = commentQuestion a
  /\ xAxis a' = xAxis a /\ yAxis a' = yAxis a /\ status a' = status a
  /\ participants a' = participants a /\ comments a' = comments a.

(** ** More sample data *)

(** A page on which nothing is loaded yet. *)
Definition null_page : PageState :=
  {| activity := None; userRating := None; userComment := None |}.

(** The double nearest to 0.1, and the next double above it. *)
Definition tenth : float := 0x1.999999999999ap-4%float.
Definition above_tenth : float := 0x1.999999999999bp-4%float.

(** Three users, each at (0.1, 0.1). *)
Definition three_tenths : Activity :=
  with_ratings new_activity
    [rating_of "a" tenth tenth; rating_of "b" tenth tenth; rating_of "c" tenth tenth].

(** * Theorems *)

(** The [activity] state after a handler ran is the updater's result. *)
Lemma activity_handle userId e st :
  activity (handle userId e st) = updater e (activity st).
Proof.
  destruct e; simpl; try reflexivity; case_bool_decide; reflexivity.
Qed.

(** ** The handlers and the [null] state *)

(** C3, as the code has it. On a page whose [activity] is [null] a handler
    does not fail and leaves [activity] [null], after one event and after
    any sequence of events.  [comment_voted], [participant_joined] and
    [participant_left] leave the whole page state as it is.  [rating_added]
    and [comment_added] leave it as it is unless the payload's userId is the
    current user's: then the payload becomes [userRating] or [userComment]
    ([setUserRating] and [setUserComment] are called outside the null
    guard). *)
Theorem handlers_without_activity (userId : string) (e : Event) (es : list Event)
    (ur : option Rating.t) (uc : option Comment.t) :
  handle userId e {| activity := None; userRating := ur; userComment := uc |}
  = {| activity := None;
       userRating :=
         match e with
         | rating_added rating =>
             if bool_decide (Rating.userId rating = userId) then Some rating else ur
         | _ => ur
         end;
       userComment :=
         match e with
         | comment_added comment =>
             if bool_decide (Comment.userId comment = userId) then Some comment else uc
         | _ => uc
         end |}
  /\ activity (handle userId e {| activity := None; userRating := ur; userComment := uc |})
     = None
  /\ activity (handle_all userId es {| activity := None; userRating := ur; userComment := uc |})
     = None
  /\ ((forall rating, e = rating_added rating -> Rating.userId rating <> userId) ->
      (forall comment, e = comment_added comment -> Comment.userId comment <> userId) ->
      handle userId e {| activity := None; userRating := ur; userComment := uc |}
      = {| activity := None; userRating := ur; userComment := uc |}).
Proof.
  assert (Hstep : forall e' ur' uc',
            activity (handle userId e' {| activity := None; userRating := ur';
                                          userComment := uc' |}) = None).
  { intros e' ur' uc'. rewrite activity_handle. destruct e'; reflexivity. }
  split; [|split; [|split]].
  - destruct e; simpl; try reflexivity; case_bool_decide; reflexivity.
  - apply Hstep.
  - unfold handle_all.
    generalize ur uc. induction es as [|e' es IH]; intros ur' uc'; [reflexivity|].
    simpl foldl.
    destruct (handle userId e' {| activity := None; userRating := ur'; userComment := uc' |})
      as [a' ur'' uc''] eqn:Hst.
    assert (a' = None) as ->.
    { change a' with (activity {| activity := a'; userRating := ur''; userComment := uc'' |}).
      rewrite <- Hst. apply Hstep. }
    apply IH.
  - intros Hr Hc. destruct e as [r|c|c|p|pid]; simpl; try reflexivity.
    + rewrite bool_decide_eq_false_2 by (apply Hr; reflexivity). reflexivity.
    + rewrite bool_decide_eq_false_2 by (apply Hc; reflexivity). reflexivity.
Qed.

(** C3, as the claim has it, fails for the user's own payload: with no
    activity loaded, [rating_added] with a rating of the current user "a"
    sets [userRating], so the page state is not what it was. *)
Lemma own_rating_is_kept_without_activity :
  handle "a" (rating_added (rating_of "a" 0%float 0%float)) null_page
  = {| activity := None;
       userRating := Some (rating_of "a" 0%float 0%float);
       userComment := None |}
  /\ handle "a" (rating_added (rating_of "a" 0%float 0%float)) null_page <> null_page.
Proof.
  split; [reflexivity|].
  intros H. assert (E := f_equal (fun st => is_Some (userRating st)) H).
  simpl in E. assert (Hno : ~ is_Some (@None Rating.t)) by (intros [x Hx]; discriminate).
  apply Hno. rewrite <- E. eexists. reflexivity.
Qed.

(** ** Ratings: replace by user *)

Lemma with_ratings_twice a r1 r2 :
  with_ratings (with_ratings a r1) r2 = with_ratings a r2.
Proof. reflexivity. Qed.

Lemma filter_other_users_push (u : string) (l : list Rating.t) (r : Rating.t) :
  Rating.userId r = u ->
  filter (fun r' => Rating.userId r' <> u) (push l r)
  = filter (fun r' => Rating.userId r' <> u) l.
Proof.
  intros Hr. unfold push. rewrite filter_app.
  rewrite (filter_cons_False _ r) by (intros H; apply H, Hr).
  rewrite filter_nil. apply app_nil_r.
Qed.

Lemma filter_other_users_twice (u : string) (l : list Rating.t) :
  filter (fun r' => Rating.userId r' <> u) (filter (fun r' => Rating.userId r' <> u) l)
  = filter (fun r' => Rating.userId r' <> u) l.
Proof. apply list_filter_filter_l. auto. Qed.

(** A later rating of the same user absorbs an earlier one. *)
Lemma rating_added_absorbs (r' r : Rating.t) (s : option Activity) :
  Rating.userId r' = Rating.userId r ->
  rating_added_updater r (rating_added_updater r' s) = rating_added_updater r s.
Proof.
  intros Hu. destruct s as [a|]; [|reflexivity].
  unfold rating_added_updater. simpl. rewrite with_ratings_twice.
  rewrite filter_other_users_push by exact Hu.
  rewrite Hu, filter_other_users_twice. reflexivity.
Qed.

Lemma rating_added_sequence userId (rs : list Rating.t) (r : Rating.t) (st : PageState) :
  Forall (fun r' => Rating.userId r' = Rating.userId r) rs ->
  activity (handle_all userId (map rating_added (rs ++ [r])) st)
  = rating_added_updater r (activity st).
Proof.
  intros Hrs. revert st. induction Hrs as [|r' rs Hr' _ IH]; intros st.
  - apply (activity_handle userId (rating_added r) st).
  - change (activity (handle_all userId (map rating_added (rs ++ [r]))
                        (handle userId (rating_added r') st))
            = rating_added_updater r (activity st)).
    rewrite IH, activity_handle.
    apply rating_added_absorbs, Hr'.
Qed.

(** C2. [rating_added] removes every rating of the incoming rating's user
    and appends the incoming one.  Handling the same event twice leaves the
    page state as handling it once did (the lists are equal, so the sets
    are), and after any sequence of [rating_added] events of one user the
    activity holds what handling the last one alone gives: of that user's
    ratings only the last one delivered. *)
Theorem rating_added_replaces_by_user (userId : string) (st : PageState)
    (rs : list Rating.t) (r : Rating.t) :
  Forall (fun r' => Rating.userId r' = Rating.userId r) rs ->
  let once := handle userId (rating_added r) st in
  activity once
  = (fun a => with_ratings a
       (filter (fun r' => Rating.userId r' <> Rating.userId r) (ratings a) ++ [r]))
    <$> activity st
  /\ handle userId (rating_added r) once = once
  /\ activity (handle_all userId (map rating_added (rs ++ [r])) st) = activity once
  /\ forall a', activity (handle_all userId (map rating_added (rs ++ [r])) st) = Some a' ->
       filter (fun r' => Rating.userId r' = Rating.userId r) (ratings a') = [r].
Proof.
  intros Hrs once.
  assert (Hact : activity once = rating_added_updater r (activity st))
    by apply activity_handle.
  split; [|split; [|split]].
  - rewrite Hact. destruct (activity st); reflexivity.
  - subst once. destruct st as [a ur uc]. unfold handle. simpl.
    case_bool_decide; simpl; rewrite rating_added_absorbs; reflexivity.
  - rewrite Hact. apply rating_added_sequence, Hrs.
  - intros a'. rewrite (rating_added_sequence _ _ _ _ Hrs).
    destruct (activity st) as [a|]; [|discriminate].
    intros [= <-]. simpl. unfold push. rewrite filter_app.
    rewrite (filter_cons_True _ r) by reflexivity. rewrite filter_nil.
    replace (filter _ (filter _ (ratings a))) with (@nil Rating.t); [reflexivity|].
    symmetry. rewrite list_filter_filter.
    induction (ratings a) as [|x l IH]; [reflexivity|].
    rewrite filter_cons_False; [exact IH | intros [H1 H2]; exact (H2 H1)].
Qed.

(** A run of two ratings by user "a" followed by a third. *)
Lemma rating_added_replaces_by_user_witness :
  activity (handle_all "a"
              (map rating_added
                 ([rating_of "a" 0%float 0%float; rating_of "a" 1%float 1%float] ++ [rating_of "a" 2%float 2%float]))
              idle_page)
  = activity (handle "a" (rating_added (rating_of "a" 2%float 2%float)) idle_page).
Proof.
  destruct (rating_added_replaces_by_user "a" idle_page
              [rating_of "a" 0%float 0%float; rating_of "a" 1%float 1%float] (rating_of "a" 2%float 2%float))
    as (_ & _ & Hlast & _).
  - repeat constructor.
  - exact Hlast.
Defined.

(** ** Comments: the two-step dedup rule *)

Lemma findIndexFrom_spec {A : Type} (p : A -> bool) (l : list A) (k : Z) :
  (0 <= k)%Z ->
  (Forall (fun c => p c = false) l /\ findIndexFrom p l k = (-1)%Z)
  \/ (exists i c, l !! i = Some c /\ p c = true
        /\ (forall j c', j < i -> l !! j = Some c' -> p c' = false)
        /\ findIndexFrom p l k = (k + Z.of_nat i)%Z).
Proof.
  revert k. induction l as [|a l IH]; intros k Hk; simpl.
  - left. split; [constructor | reflexivity].
  - destruct (p a) eqn:Hpa.
    + right. exists 0, a. repeat split; [assumption | lia | lia].
    + destruct (IH (k + 1)%Z ltac:(lia)) as [[Hall Hidx] | (i & c & Hi & Hc & Hfirst & Hidx)].
      * left. split; [constructor; assumption | assumption].
      * right. exists (S i), c. repeat split; [assumption | assumption | | lia].
        intros [|j] c' Hj Hc'; simpl in Hc'.
        -- congruence.
        -- apply (Hfirst j); [lia | assumption].
Qed.

Lemma findIndex_spec {A : Type} (p : A -> bool) (l : list A) :
  (Forall (fun c => p c = false) l /\ findIndex p l = (-1)%Z)
  \/ (exists i c, l !! i = Some c /\ p c = true
        /\ (forall j c', j < i -> l !! j = Some c' -> p c' = false)
        /\ findIndex p l = Z.of_nat i).
Proof. apply (findIndexFrom_spec p l 0). lia. Qed.

Lemma same_user_and_text_true (comment c : Comment.t) :
  same_user_and_text comment c = true
  <-> Comment.userId c = Comment.userId comment /\ Comment.text c = Comment.text comment.
Proof.
  unfold same_user_and_text.
  rewrite andb_true_iff, !bool_decide_eq_true. reflexivity.
Qed.

Lemma same_user_and_text_false (comment c : Comment.t) :
  same_user_and_text comment c = false
  <-> ~ (Comment.userId c = Comment.userId comment /\ Comment.text c = Comment.text comment).
Proof.
  rewrite <- same_user_and_text_true.
  destruct (same_user_and_text comment c); intuition congruence.
Qed.

(** The two branches of [comment_added], by what [findIndex] found. *)
Lemma comment_added_cases (comment : Comment.t) (a : Activity) :
  ((forall c, c ∈ comments a -> same_user_and_text comment c = false)
   /\ comment_added_updater comment (Some a)
      = Some (with_comments a
                (filter (fun c => Comment.userId c <> Comment.userId comment) (comments a)
                 ++ [comment])))
  \/ (exists i old, comments a !! i = Some old
        /\ same_user_and_text comment old = true
        /\ (forall j c, j < i -> comments a !! j = Some c -> same_user_and_text comment c = false)
        /\ comment_added_updater comment (Some a)
           = Some (with_comments a (<[i := comment]> (comments a)))).
Proof.
  unfold comment_added_updater.
  destruct (findIndex_spec (same_user_and_text comment) (comments a))
    as [[Hall ->] | (i & old & Hi & Hold & Hfirst & ->)].
  - left. split; [|reflexivity].
    intros c Hc. rewrite Forall_forall in Hall. apply Hall, Hc.
  - right. exists i, old. repeat split; try assumption.
    replace (0 <=? Z.of_nat i)%Z with true by (symmetry; apply Z.leb_le; lia).
    unfold assign. rewrite Nat2Z.id. reflexivity.
Qed.

(** C1. [comment_added] on a loaded activity changes only the comments, by
    the two-step rule.  When some stored comment has the incoming comment's
    userId and text, the first such comment is overwritten at its index by
    the incoming one: the comments of the new state have the same length
    and every other index keeps its comment.  Otherwise the comments of the
    new state are the stored comments of the other users, in order, followed
    by the incoming comment.  On the stored comments
    [{userId:"a", text:"hi", id:"c1"}] an incoming
    [{userId:"a", text:"hi", id:"c1", voteCount:3}] leaves exactly one
    comment, the incoming one with vote count 3. *)
Theorem comment_added_two_step_dedup (a : Activity) (comment : Comment.t)
    (name stamp name' stamp' : string) :
  (exists a', comment_added_updater comment (Some a) = Some a'
     /\ same_except_comments a a'
     /\ ((exists i old,
            comments a !! i = Some old
            /\ Comment.userId old = Comment.userId comment
            /\ Comment.text old = Comment.text comment
            /\ (forall j c, j < i -> comments a !! j = Some c ->
                  ~ (Comment.userId c = Comment.userId comment
                     /\ Comment.text c = Comment.text comment))
            /\ comments a' = <[i := comment]> (comments a)
            /\ length (comments a') = length (comments a)
            /\ comments a' !! i = Some comment
            /\ (forall j, j <> i -> comments a' !! j = comments a !! j))
         \/ ((forall c, c ∈ comments a ->
                ~ (Comment.userId c = Comment.userId comment
                   /\ Comment.text c = Comment.text comment))
             /\ comments a'
                = filter (fun c => Comment.userId c <> Comment.userId comment) (comments a)
                  ++ [comment])))
  /\ (comments a = [Comment.mk "c1" "a" name "hi" stamp None] ->
      exists a',
        comment_added_updater (Comment.mk "c1" "a" name' "hi" stamp' (Some 3)) (Some a)
        = Some a'
        /\ comments a' = [Comment.mk "c1" "a" name' "hi" stamp' (Some 3)]
        /\ length (comments a') = 1
        /\ (Comment.voteCount <$> comments a' !! 0) = Some (Some 3)).
Proof.
  split.
  - destruct (comment_added_cases comment a)
      as [[Hnone Heq] | (i & old & Hi & Hold & Hfirst & Heq)].
    + eexists. split; [exact Heq|]. split; [repeat split|]. right. split; [|reflexivity].
      intros c Hc. apply same_user_and_text_false, Hnone, Hc.
    + eexists. split; [exact Heq|]. split; [repeat split|]. left. exists i, old.
      apply same_user_and_text_true in Hold as [Hu Ht].
      assert (Hlt : i < length (comments a)) by (eapply lookup_lt_Some; eassumption).
      simpl comments. repeat split; try assumption.
      * intros j c Hj Hc [Hcu Hct].
        assert (Hf := Hfirst j c Hj Hc).
        apply same_user_and_text_false in Hf. apply Hf. split; assumption.
      * apply length_insert.
      * apply list_lookup_insert_eq, Hlt.
      * intros j Hj. apply list_lookup_insert_ne. congruence.
  - intros Hcs. unfold comment_added_updater. rewrite Hcs.
    eexists. split; [reflexivity|]. repeat split.
Qed.

(** The next event of the specification's example: a comment of the same
    user with another text evicts "c1" and is appended. *)
Example comment_added_evicts_older_text :
  comment_added_updater (Comment.mk "c2" "a" "Ann" "bye" "2024-05-01T10:05:00Z" None)
                        (Some (with_comments new_activity [comment_c1 (Some 3)]))
  = Some (with_comments new_activity
            [Comment.mk "c2" "a" "Ann" "bye" "2024-05-01T10:05:00Z" None]).
Proof. reflexivity. Qed.

(** Bob's comment stays where it is when Ann's echo arrives. *)
Example comment_added_keeps_position :
  comment_added_updater (comment_c1 (Some 3)) (Some two_commenters)
  = Some (with_comments new_activity [comment_c1 (Some 3); comment_c2]).
Proof. reflexivity. Qed.

(** ** Votes: replace by id *)

Lemma map_lookup {A B : Type} (f : A -> B) (l : list A) (i : nat) :
  map f l !! i = f <$> (l !! i).
Proof.
  revert i. induction l as [|a l IH]; intros [|i]; simpl; try reflexivity. apply IH.
Qed.

Lemma map_unchanged {A : Type} (f : A -> A) (l : list A) :
  (forall c, c ∈ l -> f c = c) -> map f l = l.
Proof.
  induction l as [|a l IH]; intros H; simpl; [reflexivity|].
  rewrite H by (left; reflexivity).
  rewrite IH; [reflexivity|]. intros c Hc. apply H. right. exact Hc.
Qed.

Lemma with_comments_same (a : Activity) : with_comments a (comments a) = a.
Proof. destruct a; reflexivity. Qed.

(** C7. [comment_voted] on a loaded activity maps over the comments: at
    every index of the new state's comments, a stored comment with the
    incoming comment's id is replaced by the incoming comment and a comment
    with another id stays as it is.  The number of comments, the ratings,
    the participants, the status and every other field are those of the
    previous state; when no stored comment has the incoming id the new state
    is the previous state, and the incoming comment is not appended. *)
Theorem comment_voted_replaces_by_id (a : Activity) (comment : Comment.t) :
  exists a',
    comment_voted_updater comment (Some a) = Some a'
    /\ length (comments a') = length (comments a)
    /\ (forall i c, comments a !! i = Some c ->
          (Comment.id c = Comment.id comment -> comments a' !! i = Some comment)
          /\ (Comment.id c <> Comment.id comment -> comments a' !! i = Some c))
    /\ (forall i, comments a !! i = None -> comments a' !! i = None)
    /\ same_except_comments a a'
    /\ ((forall c, c ∈ comments a -> Comment.id c <> Comment.id comment) ->
          comments a' = comments a /\ a' = a).
Proof.
  eexists. split; [reflexivity|]. simpl comments.
  split; [apply length_map|].
  split; [|split; [|split; [repeat split|]]].
  - intros i c Hi. rewrite map_lookup, Hi. simpl.
    split; intros Hid; case_bool_decide; congruence.
  - intros i Hi. rewrite map_lookup, Hi. reflexivity.
  - intros Hnone.
    assert (Hsame : map (fun c => if bool_decide (Comment.id c = Comment.id comment)
                                  then comment else c) (comments a) = comments a).
    { apply map_unchanged. intros c Hc. case_bool_decide; [|reflexivity].
      exfalso. eapply Hnone; eassumption. }
    split; [exact Hsame|]. rewrite Hsame. apply with_comments_same.
Qed.

(** ** Participants: upsert and remove by id *)

Lemma filter_all {A : Type} (P : A -> Prop) `{forall x, Decision (P x)} (l : list A) :
  (forall x, x ∈ l -> P x) -> filter P l = l.
Proof.
  induction l as [|a l IH]; intros Hall; [reflexivity|].
  rewrite filter_cons_True by (apply Hall; left).
  rewrite IH; [reflexivity|]. intros x Hx. apply Hall. right. exact Hx.
Qed.

Lemma filter_none {A : Type} (P : A -> Prop) `{forall x, Decision (P x)} (l : list A) :
  (forall x, x ∈ l -> ~ P x) -> filter P l = [].
Proof.
  induction l as [|a l IH]; intros Hall; [reflexivity|].
  rewrite filter_cons_False by (apply Hall; left).
  apply IH. intros x Hx. apply Hall. right. exact Hx.
Qed.

Lemma map_filter_key {A : Type} (key : A -> string) (k : string) (l : list A) :
  map key (filter (fun x => key x <> k) l) = filter (fun k' => k' <> k) (map key l).
Proof.
  induction l as [|a l IH]; [reflexivity|]. simpl map.
  destruct (decide (key a = k)) as [Heq|Hne].
  - rewrite !filter_cons_False by (intros H; apply H, Heq). exact IH.
  - rewrite !filter_cons_True by exact Hne. simpl. rewrite IH. reflexivity.
Qed.

(** Removing the entries with key [k] and appending one entry with key [k]
    keeps the keys free of duplicates. *)
Lemma NoDup_upsert {A : Type} (key : A -> string) (l : list A) (v : A) :
  NoDup (map key l) ->
  NoDup (map key (filter (fun x => key x <> key v) l ++ [v])).
Proof.
  intros Hnd. rewrite map_app, map_filter_key. simpl.
  apply NoDup_app. split; [apply NoDup_filter, Hnd|]. split.
  - intros k Hk Hin. apply list_elem_of_filter in Hk as [Hne _].
    apply list_elem_of_singleton in Hin. contradiction.
  - apply NoDup_singleton.
Qed.

Lemma NoDup_remove_key {A : Type} (key : A -> string) (l : list A) (k : string) :
  NoDup (map key l) -> NoDup (map key (filter (fun x => key x <> k) l)).
Proof. intros Hnd. rewrite map_filter_key. apply NoDup_filter, Hnd. Qed.

Lemma with_participants_same (a : Activity) : with_participants a (participants a) = a.
Proof. destruct a; reflexivity. Qed.

(** C8. [participant_joined] removes every stored participant with the
    incoming id and appends the incoming participant: in the new state
    exactly one participant has that id, the incoming one, the participants
    with other ids are kept, and ids that were unique stay unique.
    [participant_left] keeps, in order, the participants with another id:
    in the new state none has the given id, ids that were unique stay
    unique, and when no participant had the given id the new state is the
    previous state.  Neither changes any other field. *)
Theorem participants_upsert_and_remove (a : Activity) (p : Participant.t) (pid : string) :
  (exists a',
     participant_joined_updater p (Some a) = Some a'
     /\ participants a'
        = filter (fun q => Participant.id q <> Participant.id p) (participants a) ++ [p]
     /\ filter (fun q => Participant.id q = Participant.id p) (participants a') = [p]
     /\ (forall q, Participant.id q <> Participant.id p ->
           q ∈ participants a' <-> q ∈ participants a)
     /\ (unique_participants a -> unique_participants a')
     /\ same_except_participants a a')
  /\ (exists a',
        participant_left_updater pid (Some a) = Some a'
        /\ participants a' = filter (fun q => Participant.id q <> pid) (participants a)
        /\ (forall q, q ∈ participants a' <-> q ∈ participants a /\ Participant.id q <> pid)
        /\ (unique_participants a -> unique_participants a')
        /\ same_except_participants a a'
        /\ ((forall q, q ∈ participants a -> Participant.id q <> pid) -> a' = a)).
Proof.
  split.
  - exists (with_participants a
              (filter (fun q => Participant.id q <> Participant.id p) (participants a) ++ [p])).
    split; [reflexivity|]. simpl participants.
    split; [reflexivity|]. split; [|split; [|split; [|repeat split]]].
    + rewrite filter_app, (filter_cons_True _ p), filter_nil by reflexivity.
      rewrite filter_none; [reflexivity|].
      intros q Hq Heq. apply list_elem_of_filter in Hq as [Hne _]. contradiction.
    + intros q Hq. rewrite elem_of_app, list_elem_of_filter, list_elem_of_singleton.
      split.
      * intros [[_ H] | Heq]; [exact H | subst q; contradiction].
      * intros H. left. split; assumption.
    + unfold unique_participants. simpl. apply NoDup_upsert.
  - exists (with_participants a (filter (fun q => Participant.id q <> pid) (participants a))).
    split; [reflexivity|]. simpl participants.
    split; [reflexivity|]. split; [|split; [|split; [repeat split|]]].
    + intros q. rewrite list_elem_of_filter. tauto.
    + unfold unique_participants. simpl. apply NoDup_remove_key.
    + intros Habsent. rewrite filter_all by exact Habsent.
      apply with_participants_same.
Qed.

(** ** One rating and one comment per user *)

Lemma map_fmap {A B : Type} (f : A -> B) (l : list A) : map f l = f <$> l.
Proof. induction l as [|a l IH]; simpl; [reflexivity | rewrite IH; reflexivity]. Qed.

Lemma elem_of_insert_inv {A : Type} (l : list A) (i : nat) (v c : A) :
  c ∈ <[i := v]> l -> c = v \/ c ∈ l.
Proof.
  revert i. induction l as [|a l IH]; intros [|i] Hc; simpl in Hc.
  - right. exact Hc.
  - right. exact Hc.
  - apply elem_of_cons in Hc as [->|Hc]; [left; reflexivity | right; right; exact Hc].
  - apply elem_of_cons in Hc as [->|Hc]; [right; left|].
    destruct (IH i Hc) as [->|Hin]; [left; reflexivity | right; right; exact Hin].
Qed.

(** Overwriting an entry by one with the same key leaves the keys as they are. *)
Lemma map_key_insert_same {A : Type} (key : A -> string) (l : list A) (i : nat) (old v : A) :
  l !! i = Some old -> key old = key v ->
  map key (<[i := v]> l) = map key l.
Proof.
  intros Hi Hk. rewrite !map_fmap, list_fmap_insert.
  apply list_insert_id. rewrite list_lookup_fmap, Hi. simpl. congruence.
Qed.

Lemma map_key_map_same {A : Type} (key : A -> string) (g : A -> A) (l : list A) :
  (forall c, c ∈ l -> key (g c) = key c) ->
  map key (map g l) = map key l.
Proof.
  induction l as [|a l IH]; intros H; simpl; [reflexivity|].
  rewrite H by (left; reflexivity).
  rewrite IH; [reflexivity|]. intros c Hc. apply H. right. exact Hc.
Qed.

(** With unique keys, an entry is the only one of its key. *)
Lemma NoDup_key_inj {A : Type} (key : A -> string) (l : list A) (c c' : A) :
  NoDup (map key l) -> c ∈ l -> c' ∈ l -> key c = key c' -> c = c'.
Proof.
  induction l as [|a l IH]; intros Hnd Hc Hc' Hk; [inversion Hc|].
  simpl in Hnd. apply NoDup_cons in Hnd as [Hnotin Hnd].
  assert (Hin : forall d, d ∈ l -> key d ∈ map key l).
  { intros d Hd. rewrite map_fmap. apply list_elem_of_fmap_2, Hd. }
  apply elem_of_cons in Hc as [->|Hc]; apply elem_of_cons in Hc' as [->|Hc'].
  - reflexivity.
  - exfalso. apply Hnotin. rewrite Hk. apply Hin, Hc'.
  - exfalso. apply Hnotin. rewrite <- Hk. apply Hin, Hc.
  - apply IH; assumption.
Qed.

Lemma NoDup_key_filter {A : Type} (key : A -> string) (l : list A) (c : A) :
  NoDup (map key l) -> c ∈ l -> filter (fun d => key d = key c) l = [c].
Proof.
  induction l as [|a l IH]; intros Hnd Hc; [inversion Hc|].
  simpl in Hnd. apply NoDup_cons in Hnd as [Hnotin Hnd].
  assert (Hin : forall d, d ∈ l -> key d ∈ map key l).
  { intros d Hd. rewrite map_fmap. apply list_elem_of_fmap_2, Hd. }
  apply elem_of_cons in Hc as [->|Hc].
  - rewrite filter_cons_True by reflexivity. f_equal.
    apply filter_none. intros d Hd Hk. apply Hnotin. rewrite <- Hk. apply Hin, Hd.
  - rewrite filter_cons_False; [apply IH; assumption|].
    intros Hk. apply Hnotin. rewrite Hk. apply Hin, Hc.
Qed.

(** The comment that [comment_added] delivers is stored afterwards. *)
Lemma comment_added_stores (comment : Comment.t) (a : Activity) :
  exists a', comment_added_updater comment (Some a) = Some a' /\ comment ∈ comments a'.
Proof.
  destruct (comment_added_cases comment a) as [[_ ->] | (i & old & Hi & _ & _ & ->)];
    eexists; (split; [reflexivity|]); simpl.
  - apply elem_of_app. right. left.
  - apply list_elem_of_insert. eapply lookup_lt_Some, Hi.
Qed.

Lemma comment_added_one_per_user (comment : Comment.t) (a : Activity) :
  one_per_user a ->
  exists a', comment_added_updater comment (Some a) = Some a' /\ one_per_user a'.
Proof.
  intros [Hr Hc].
  destruct (comment_added_cases comment a) as [[_ ->] | (i & old & Hi & Hold & _ & ->)];
    eexists; (split; [reflexivity|]); (split; [exact Hr|]); simpl.
  - apply NoDup_upsert, Hc.
  - apply same_user_and_text_true in Hold as [Hu _].
    rewrite (map_key_insert_same Comment.userId _ _ old) by assumption. exact Hc.
Qed.

(** Every event but an unchecked [comment_voted] keeps one rating and one
    comment per user. *)
Lemma updater_one_per_user (a : Activity) (e : Event) :
  one_per_user a -> vote_keeps_author a e ->
  exists a', updater e (Some a) = Some a' /\ one_per_user a'.
Proof.
  intros Hinv Hauthor. destruct e as [r|c|c|p|pid]; simpl.
  - eexists. split; [reflexivity|]. destruct Hinv as [Hr Hc].
    split; [|exact Hc]. simpl. apply NoDup_upsert, Hr.
  - apply comment_added_one_per_user, Hinv.
  - eexists. split; [reflexivity|]. destruct Hinv as [Hr Hc].
    split; [exact Hr|]. simpl. rewrite map_key_map_same; [exact Hc|].
    intros c0 Hc0. case_bool_decide; [|reflexivity].
    symmetry. apply Hauthor; assumption.
  - eexists. split; [reflexivity|]. exact Hinv.
  - eexists. split; [reflexivity|]. exact Hinv.
Qed.

(** C4, as the code has it. A state with at most one rating and at most one
    comment per userId keeps that property under [rating_added],
    [comment_added], [participant_joined] and [participant_left] with any
    payload, and under [comment_voted] when the payload has the userId of
    the stored comments whose id it carries ([comment_voted] replaces by id
    and does not look at userId).  In particular two [comment_added] events
    of one user, with the same text or not, leave exactly one comment of
    that user, the second one delivered. *)
Theorem one_per_user_is_kept (a : Activity) (e : Event) (c c' : Comment.t) :
  one_per_user a ->
  vote_keeps_author a e ->
  Comment.userId c' = Comment.userId c ->
  (exists a', updater e (Some a) = Some a' /\ one_per_user a')
  /\ (exists a2,
        updater (comment_added c') (updater (comment_added c) (Some a)) = Some a2
        /\ one_per_user a2
        /\ filter (fun d => Comment.userId d = Comment.userId c) (comments a2) = [c']).
Proof.
  intros Hinv Hauthor Hu. split; [apply updater_one_per_user; assumption|].
  unfold updater.
  destruct (comment_added_one_per_user c a Hinv) as (a1 & -> & Hinv1).
  destruct (comment_added_one_per_user c' a1 Hinv1) as (a2 & Ha2 & Hinv2).
  destruct (comment_added_stores c' a1) as (a2' & Ha2' & Hin).
  rewrite Ha2 in Ha2'. injection Ha2' as <-.
  exists a2. split; [exact Ha2|]. split; [exact Hinv2|].
  rewrite <- Hu. apply NoDup_key_filter; [apply Hinv2 | exact Hin].
Qed.

Lemma two_commenters_one_per_user : one_per_user two_commenters.
Proof.
  split; simpl; [apply NoDup_nil_2|].
  apply NoDup_cons. split; [|apply NoDup_singleton].
  intros H. apply list_elem_of_singleton in H. discriminate.
Qed.

(** Two users, one comment each, and an echo of Ann's comment with a vote
    count: the payload has the author of the stored comment. *)
Lemma one_per_user_is_kept_witness :
  (exists a', updater (comment_voted (comment_c1 (Some 1))) (Some two_commenters) = Some a'
              /\ one_per_user a')
  /\ (exists a2,
        updater (comment_added (comment_c1 (Some 1)))
                (updater (comment_added (comment_c1 None)) (Some two_commenters)) = Some a2
        /\ one_per_user a2
        /\ filter (fun d => Comment.userId d = Comment.userId (comment_c1 None)) (comments a2)
           = [comment_c1 (Some 1)]).
Proof.
  apply (one_per_user_is_kept two_commenters (comment_voted (comment_c1 (Some 1)))
           (comment_c1 None) (comment_c1 (Some 1))).
  - exact two_commenters_one_per_user.
  - simpl. intros c Hc Hid.
    apply elem_of_cons in Hc as [->|Hc]; [reflexivity|].
    apply list_elem_of_singleton in Hc as ->. discriminate.
  - reflexivity.
Defined.

(** C4, as the claim has it, fails for [comment_voted]: with one comment of
    user "a" (id "c1") and one of user "b" (id "c2") stored, a [comment_voted]
    payload with id "c1" and userId "b" leaves two comments of user "b". *)
Lemma comment_voted_can_duplicate_user :
  one_per_user two_commenters
  /\ exists a', updater (comment_voted comment_c1_by_b) (Some two_commenters) = Some a'
       /\ comments a' = [comment_c1_by_b; comment_c2]
       /\ ~ one_per_user a'.
Proof.
  split; [exact two_commenters_one_per_user|].
  eexists. split; [reflexivity|]. split; [reflexivity|].
  intros [_ Hc]. simpl in Hc. apply NoDup_cons in Hc as [Hnotin _].
  apply Hnotin. left.
Qed.

(** ** Vote counts *)

(** What an event leaves in the comments was there before or is the comment
    the event delivered. *)
Lemma updater_comments_origin (a : Activity) (e : Event) :
  exists a', updater e (Some a) = Some a'
    /\ forall c', c' ∈ comments a' -> c' ∈ comments a \/ delivered_comment e = Some c'.
Proof.
  destruct e as [r|c|c|p|pid]; unfold updater.
  - eexists. split; [reflexivity|]. intros c' Hc'. left. exact Hc'.
  - destruct (comment_added_cases c a) as [[_ ->] | (i & old & _ & _ & _ & ->)];
      eexists; (split; [reflexivity|]); simpl; intros c' Hc'.
    + apply elem_of_app in Hc' as [Hc'|Hc'].
      * left. apply list_elem_of_filter in Hc' as [_ Hc']. exact Hc'.
      * right. apply list_elem_of_singleton in Hc' as ->. reflexivity.
    + apply elem_of_insert_inv in Hc' as [->|Hc']; [right; reflexivity | left; exact Hc'].
  - eexists. split; [reflexivity|]. simpl. intros c' Hc'.
    rewrite map_fmap in Hc'. apply list_elem_of_fmap in Hc' as (c0 & -> & Hc0).
    case_bool_decide; [right; reflexivity | left; exact Hc0].
  - eexists. split; [reflexivity|]. intros c' Hc'. left. exact Hc'.
  - eexists. split; [reflexivity|]. intros c' Hc'. left. exact Hc'.
Qed.

(** C5, as the code has it. No handler computes a vote count: every comment
    stored after an event was stored before it, unchanged, or is the comment
    the server delivered with the event, and the delivered comment is
    installed as it is, whatever its count: [comment_added] stores it, and
    [comment_voted] puts it at every index whose comment has its id.  The
    stored count of a comment id therefore does not go down in a step when
    the stored ids are unique and the delivered count is not lower than the
    count stored under the delivered id. *)
Theorem votes_are_the_servers (a : Activity) (e : Event) :
  (exists a', updater e (Some a) = Some a'
     /\ (forall c', c' ∈ comments a' -> c' ∈ comments a \/ delivered_comment e = Some c')
     /\ (forall comment, e = comment_added comment -> comment ∈ comments a')
     /\ (forall comment i c, e = comment_voted comment ->
           comments a !! i = Some c -> Comment.id c = Comment.id comment ->
           comments a' !! i = Some comment))
  /\ (NoDup (map Comment.id (comments a)) ->
      delivered_votes_not_lower a e ->
      votes_monotone a e).
Proof.
  split.
  - destruct (updater_comments_origin a e) as (a' & Hstep & Horigin).
    exists a'. split; [exact Hstep|]. split; [exact Horigin|]. split.
    + intros comment ->. unfold updater in Hstep.
      destruct (comment_added_stores comment a) as (a'' & Hstep' & Hin).
      rewrite Hstep in Hstep'. injection Hstep' as <-. exact Hin.
    + intros comment i c -> Hi Hid. unfold updater, comment_voted_updater in Hstep.
      injection Hstep as <-. simpl comments. rewrite map_lookup, Hi. simpl.
      rewrite bool_decide_eq_true_2 by exact Hid. reflexivity.
  - intros Hids Hserver a' c c' Hstep Hc Hc' Hid.
    destruct (updater_comments_origin a e) as (a'' & Hstep' & Horigin).
    rewrite Hstep in Hstep'. injection Hstep' as <-.
    destruct (Horigin c' Hc') as [Hold | Hnew].
    + assert (c = c') as -> by (eapply (NoDup_key_inj Comment.id); eassumption).
      reflexivity.
    + apply (Hserver c' c); assumption.
Qed.

(** A vote on the stored comment "c1" that raises its count from 3 to 4. *)
Lemma votes_are_the_servers_witness :
  votes_monotone voted_three_times (comment_voted (comment_c1 (Some 4))).
Proof.
  apply (proj2 (votes_are_the_servers voted_three_times (comment_voted (comment_c1 (Some 4))))).
  - simpl. apply NoDup_singleton.
  - intros comment c Hd Hc _. injection Hd as <-.
    apply list_elem_of_singleton in Hc as ->. cbv. lia.
Defined.

(** C5, as the claim has it, fails: the handlers install whatever count the
    server delivers.  With the comment "c1" stored at 3 votes, a
    [comment_voted] payload for "c1" with 1 vote leaves it at 1. *)
Lemma comment_voted_can_lower_votes :
  updater (comment_voted (comment_c1 (Some 1))) (Some voted_three_times)
  = Some (with_comments new_activity [comment_c1 (Some 1)])
  /\ ~ votes_monotone voted_three_times (comment_voted (comment_c1 (Some 1))).
Proof.
  split; [reflexivity|].
  intros Hmono.
  specialize (Hmono (with_comments new_activity [comment_c1 (Some 1)])
                (comment_c1 (Some 3)) (comment_c1 (Some 1))).
  assert (3 <= 1) as Habs; [|lia].
  apply Hmono; [reflexivity | left | left | reflexivity].
Qed.

(** ** Aggregate statistics *)

Lemma foldl_map {A B C : Type} (g : C -> B -> C) (f : A -> B) (l : list A) (acc : C) :
  foldl (fun s r => g s (f r)) acc l = foldl g acc (map f l).
Proof. revert acc. induction l as [|r l IH]; intros acc; simpl; [reflexivity | apply IH]. Qed.

(** [reduce] is the sum from the left of the projected coordinates. *)
Lemma reduce_sum_is_sum (f : Rating.t -> float) (l : list Rating.t) :
  reduce_sum f l = sum_left (map f l).
Proof. apply (foldl_map PrimFloat.add f l). Qed.

(** *** The double of a count is not zero *)

Lemma digits2_pos_iter_xO (p k : positive) :
  digits2_pos (PosDef.Pos.iter xO p k) = (digits2_pos p + k)%positive.
Proof.
  change (PosDef.Pos.iter xO p k) with (Pos.iter xO p k).
  induction k as [|k IH] using Pos.peano_ind.
  - simpl. lia.
  - rewrite Pos.iter_succ. simpl. rewrite IH. lia.
Qed.

(** No bit is shifted out of a mantissa that already has 53 digits. *)
Lemma shr_fexp_exact (m : positive) (e : Z) :
  (Zpos (digits2_pos m) + e - 53 = e)%Z -> (-1074 <= e)%Z ->
  shr_fexp prec emax (Zpos m) e loc_Exact
  = ({| shr_m := Zpos m; shr_r := false; shr_s := false |}, e).
Proof.
  intros He Hmin. unfold shr_fexp.
  assert (IntDef.Z.sub (fexp prec emax (IntDef.Z.add (Zdigits2 (Zpos m)) e)) e = 0%Z) as ->.
  { change ((fexp prec emax (Zpos (digits2_pos m) + e) - e)%Z = 0%Z).
    unfold fexp, SpecFloat.emin, prec, emax.
    change (IntDef.Z.max ?a ?b) with (Z.max a b).
    change (IntDef.Z.sub ?a ?b) with (Z.sub a b). lia. }
  reflexivity.
Qed.

(** A positive integer of at most 53 binary digits rounds to itself, not to
    zero. *)
Lemma binary_round_small_nonzero (p : positive) :
  (Zpos (digits2_pos p) <= 53)%Z ->
  binary_round prec emax false p 0 <> S754_zero false.
Proof.
  intros Hd. unfold binary_round, shl_align.
  assert (Hf : fexp prec emax (IntDef.Z.add (Zpos (digits2_pos p)) 0)
               = (Zpos (digits2_pos p) - 53)%Z).
  { change (fexp prec emax (Zpos (digits2_pos p) + 0) = (Zpos (digits2_pos p) - 53)%Z).
    unfold fexp, SpecFloat.emin, prec, emax.
    change (IntDef.Z.max ?a ?b) with (Z.max a b).
    change (IntDef.Z.sub ?a ?b) with (Z.sub a b). lia. }
  rewrite Hf.
  change (IntDef.Z.sub ?a ?b) with (Z.sub a b).
  destruct (Zpos (digits2_pos p) - 53 - 0)%Z as [|d|d] eqn:Hsub; try lia.
  - unfold binary_round_aux. rewrite shr_fexp_exact by lia.
    cbv beta iota zeta delta [shr_m loc_of_shr_record round_nearest_even].
    rewrite shr_fexp_exact by lia.
    cbv beta iota zeta delta [shr_m]. discriminate.
  - assert (Hd' : (Zpos d = 53 - Zpos (digits2_pos p))%Z).
    { rewrite <- Pos2Z.opp_pos in Hsub. lia. }
    unfold binary_round_aux.
    rewrite shr_fexp_exact by (try rewrite digits2_pos_iter_xO; lia).
    cbv beta iota zeta delta [shr_m loc_of_shr_record round_nearest_even].
    rewrite shr_fexp_exact by (try rewrite digits2_pos_iter_xO; lia).
    cbv beta iota zeta delta [shr_m].
    destruct (_ <=? _)%Z; discriminate.
Qed.

Lemma digits2_pos_bound (p : positive) (k : nat) :
  (Zpos p < 2 ^ Z.of_nat k)%Z -> (Zpos (digits2_pos p) <= Z.of_nat k)%Z.
Proof.
  revert k. induction p as [p IH|p IH|]; intros k Hp; simpl.
  - destruct k as [|k]; [simpl in Hp; lia|].
    rewrite Nat2Z.inj_succ, Z.pow_succ_r in Hp by lia.
    specialize (IH k). lia.
  - destruct k as [|k]; [simpl in Hp; lia|].
    rewrite Nat2Z.inj_succ, Z.pow_succ_r in Hp by lia.
    specialize (IH k). lia.
  - destruct k as [|k]; [simpl in Hp; lia|]. lia.
Qed.

(** The divisor of the mean is not zero when the count is not: the double
    of a count between 1 and 2^53 is that integer. *)
Lemma number_of_nat_nonzero (n : nat) :
  n <> 0 -> (Z.of_nat n < 2 ^ 53)%Z -> number_of_nat n <> 0%float.
Proof.
  intros Hn Hlt Heq. apply (f_equal Prim2SF) in Heq.
  unfold number_of_nat in Heq. rewrite of_uint63_spec in Heq.
  rewrite Uint63.of_Z_spec, Z.mod_small in Heq
    by (split; [lia | eapply Z.lt_trans; [exact Hlt | reflexivity]]).
  destruct (Z.of_nat n) as [|p|p] eqn:Hz; try lia.
  simpl in Heq. revert Heq. apply binary_round_small_nonzero.
  apply (digits2_pos_bound p 53). exact Hlt.
Qed.

(** C6, as the code has it. The statistics give no mean position ([null])
    exactly when there is no rating, so no quotient is evaluated with a zero
    count.  With at least one rating the mean position is, in each
    coordinate, the sum of that coordinate taken from the left in double
    arithmetic, starting from 0, divided in double arithmetic by the number
    of ratings; the count is at least one and, for an array (fewer than 2^32
    ratings), the divisor is not zero.  For the ratings (0,0) and (2,2) the
    mean position is (1,1). *)
Theorem mean_position_of_ratings (a : Activity) :
  match ratings a with
  | [] => averagePosition (stats a) = None
  | _ :: _ =>
      let n := number_of_nat (length (ratings a)) in
      let xs := map (fun r => Position.x (Rating.position r)) (ratings a) in
      let ys := map (fun r => Position.y (Rating.position r)) (ratings a) in
      averagePosition (stats a)
      = Some {| Position.x := (sum_left xs / n)%float;
                Position.y := (sum_left ys / n)%float |}
      /\ 1 <= length (ratings a)
      /\ ((Z.of_nat (length (ratings a)) < 2 ^ 32)%Z -> n <> 0%float)
  end
  /\ (averagePosition (stats a) = None <-> ratings a = [])
  /\ (forall ua ub na nb ta tb,
        ratings a = [Rating.mk ua na (Position.mk 0 0) ta; Rating.mk ub nb (Position.mk 2 2) tb] ->
        averagePosition (stats a) = Some {| Position.x := 1%float; Position.y := 1%float |}).
Proof.
  assert (Hsome : forall r rs, ratings a = r :: rs ->
            averagePosition (stats a)
            = Some {| Position.x :=
                        (sum_left (map (fun r => Position.x (Rating.position r)) (ratings a))
                         / number_of_nat (length (ratings a)))%float;
                      Position.y :=
                        (sum_left (map (fun r => Position.y (Rating.position r)) (ratings a))
                         / number_of_nat (length (ratings a)))%float |}).
  { intros r rs Hrs. unfold stats. simpl averagePosition.
    rewrite !reduce_sum_is_sum, Hrs. reflexivity. }
  assert (Hnone : ratings a = [] -> averagePosition (stats a) = None).
  { intros Hrs. unfold stats. simpl. rewrite Hrs. reflexivity. }
  split; [|split].
  - destruct (ratings a) as [|r rs] eqn:Hrs; [apply Hnone; reflexivity|].
    intros n xs ys. split; [exact (Hsome r rs eq_refl)|]. split; [simpl; lia|].
    intros Hlen. apply number_of_nat_nonzero; [discriminate|].
    eapply Z.lt_trans; [exact Hlen | reflexivity].
  - split; [|exact Hnone].
    destruct (ratings a) as [|r rs] eqn:Hrs; [reflexivity|].
    rewrite (Hsome r rs eq_refl). discriminate.
  - intros ua ub na nb ta tb Hrs. unfold stats. simpl averagePosition.
    rewrite Hrs. reflexivity.
Qed.

(** C6, as the claim has it, fails: the mean is computed in doubles, and the
    rounded sum divided by the count is not always the arithmetic mean.
    Three ratings at the same position (0.1, 0.1) have that position as
    their arithmetic mean; the statistics give the next double above 0.1 in
    both coordinates. *)
Lemma mean_of_equal_ratings_is_rounded :
  (forall r, r ∈ ratings three_tenths ->
     Rating.position r = {| Position.x := tenth; Position.y := tenth |})
  /\ averagePosition (stats three_tenths)
     = Some {| Position.x := above_tenth; Position.y := above_tenth |}
  /\ averagePosition (stats three_tenths)
     <> Some {| Position.x := tenth; Position.y := tenth |}.
Proof.
  split; [|split].
  - intros r Hr. simpl in Hr.
    repeat (apply elem_of_cons in Hr as [-> | Hr]; [reflexivity|]). inversion Hr.
  - reflexivity.
  - intros H.
    assert (E := f_equal (fun o => match o with
                                   | Some mean => PrimFloat.eqb (Position.x mean) tenth
                                   | None => true
                                   end) H).
    vm_compute in E. discriminate E.
Qed.

(** ** Map dots: from a userId to the comment *)

Lemma find_calls_le {A : Type} (p : A -> bool) (l : list A) :
  find_calls p l <= length l.
Proof. induction l as [|a l IH]; simpl; [lia|]. destruct (p a); lia. Qed.

(** What [find] returns and what it costs, by the position of the first
    element that satisfies the predicate. *)
Lemma find_scan {A : Type} (p : A -> bool) (l : list A) :
  match find p l with
  | None => (forall c, c ∈ l -> p c = false) /\ find_calls p l = length l
  | Some c =>
      exists i, l !! i = Some c /\ p c = true
        /\ (forall j c', j < i -> l !! j = Some c' -> p c' = false)
        /\ find_calls p l = S i
  end.
Proof.
  induction l as [|a l IH]; simpl.
  - split; [|reflexivity]. intros c Hc. inversion Hc.
  - destruct (p a) eqn:Hpa.
    + exists 0. repeat split; [assumption|]. intros j c' Hj. lia.
    + destruct (find p l) as [c|].
      * destruct IH as (i & Hi & Hc & Hfirst & Hcalls).
        exists (S i). repeat split; [assumption | assumption | | lia].
        intros [|j] c' Hj Hc'; simpl in Hc'; [congruence|].
        apply (Hfirst j); [lia | assumption].
      * destruct IH as [Hall Hcalls]. split; [|lia].
        intros c Hc. apply elem_of_cons in Hc as [->|Hc]; [assumption | apply Hall, Hc].
Qed.

Lemma crowd_size (n : nat) : length (comments (crowd n)) = n.
Proof. unfold crowd. simpl. rewrite length_map. apply length_seq. Qed.

(** C9, as the code has it. A click on a map dot resolves the userId with
    [find] over [activity.comments] and tests the comment's id with
    [includes] over [visibleCommentIds]; there is no index keyed by userId.
    [find] returns the first comment of that user and calls its predicate
    once per comment up to that one, or once per stored comment when the
    user has none; the click selects the comment exactly when its id is
    visible and otherwise leaves the selection as it was. *)
Theorem map_dot_lookup_is_a_scan (a : Activity) (userId : string) (v : ViewState) :
  lookup_calls a userId <= length (comments a)
  /\ match comment_of_user a userId with
     | None =>
         (forall c, c ∈ comments a -> Comment.userId c <> userId)
         /\ lookup_calls a userId = length (comments a)
         /\ handleMapDotClick a userId v = v
         /\ handleMobileMapDotTap a userId v = v
     | Some c =>
         (exists i, comments a !! i = Some c
            /\ Comment.userId c = userId
            /\ (forall j c', j < i -> comments a !! j = Some c' -> Comment.userId c' <> userId)
            /\ lookup_calls a userId = S i)
         /\ selectedCommentId (handleMapDotClick a userId v)
            = (if includes (visibleCommentIds v) (Comment.id c)
               then Some (Comment.id c) else selectedCommentId v)
         /\ mobilePopupComment (handleMobileMapDotTap a userId v)
            = (if includes (visibleCommentIds v) (Comment.id c)
               then Some (Comment.id c) else mobilePopupComment v)
     end.
Proof.
  split; [apply find_calls_le|].
  unfold handleMapDotClick, handleMobileMapDotTap, lookup_calls, comment_of_user.
  pose proof (find_scan (fun c => bool_decide (Comment.userId c = userId)) (comments a)) as Hscan.
  destruct (find _ (comments a)) as [c|].
  - destruct Hscan as (i & Hi & Hc & Hfirst & Hcalls).
    split; [|split; destruct (includes _ _); reflexivity].
    exists i. repeat split; [assumption | | | assumption].
    + apply bool_decide_eq_true in Hc. exact Hc.
    + intros j c' Hj Hc'. specialize (Hfirst j c' Hj Hc').
      apply bool_decide_eq_false in Hfirst. exact Hfirst.
  - destruct Hscan as [Hall Hcalls]. repeat split; try assumption.
    intros c Hc. specialize (Hall c Hc). apply bool_decide_eq_false in Hall. exact Hall.
Qed.

Lemma find_calls_app {A : Type} (p : A -> bool) (l1 l2 : list A) :
  (forall c, c ∈ l1 -> p c = false) ->
  find_calls p (l1 ++ l2) = length l1 + find_calls p l2.
Proof.
  induction l1 as [|a l1 IH]; intros Hnone; simpl; [reflexivity|].
  rewrite Hnone by left. rewrite IH; [reflexivity|].
  intros c Hc. apply Hnone. right. exact Hc.
Qed.

(** Resolving the user of the last comment of a crowd calls the predicate
    on every comment. *)
Lemma crowd_last_lookup (n : nat) :
  lookup_calls (crowd (S n)) (Comment.userId (crowd_comment n)) = S n.
Proof.
  unfold lookup_calls.
  change (comments (crowd (S n))) with (map crowd_comment (seq 0 (S n))).
  rewrite seq_S, map_app, find_calls_app.
  - rewrite length_map, length_seq. simpl.
    rewrite bool_decide_eq_true_2 by reflexivity. lia.
  - intros c Hc. rewrite map_fmap in Hc.
    apply list_elem_of_fmap in Hc as (i & -> & Hi).
    apply elem_of_seq in Hi. apply bool_decide_eq_false. simpl.
    intros Heq. apply String.app_inj, pretty_nat_inj in Heq. lia.
Qed.

(** C9, as the claim has it, fails: the lookup is not constant-time.  In an
    activity of 10,000 comments, resolving the user of the last one takes
    10,000 predicate calls, and no number bounds the calls of every lookup. *)
Lemma map_dot_lookup_is_not_constant_time :
  length (comments (crowd 10000)) = 10000
  /\ lookup_calls (crowd 10000) "u9999" = 10000
  /\ ~ exists k, lookup_bounded_by k.
Proof.
  split; [apply crowd_size|]. split; [exact (crowd_last_lookup 9999)|].
  intros [k Hk]. specialize (Hk (crowd (S k)) (Comment.userId (crowd_comment k))).
  rewrite crowd_last_lookup in Hk. lia.
Qed.

(** ** The admin routes outside the admin subdomain *)

(** C10. A request for a path that starts with "/admin", on a host whose
    first dot-separated label is not the configured admin subdomain, that is
    not admin.localhost and whose name does not contain "localhost", is
    answered with status 404 and does not continue. *)
Theorem admin_route_off_admin_host_is_404 (ADMIN_SUBDOMAIN : option string)
    (request : NextRequest) :
  let hostname := or_else (host request) "" in
  startsWith (pathname request) "/admin" = true ->
  hd "" (split "."%char hostname) <> or_else ADMIN_SUBDOMAIN "admin" ->
  hostname <> "admin.localhost" ->
  str_includes hostname "localhost" = false ->
  middleware ADMIN_SUBDOMAIN request = response 404.
Proof.
  intros hostname Hroute Hlabel Hnotlocal Hnolocalhost.
  unfold middleware. fold hostname.
  rewrite Hroute, Hnolocalhost.
  rewrite (bool_decide_eq_false_2 _ Hlabel).
  rewrite (bool_decide_eq_false_2 _ Hnotlocal).
  assert (Hport : hostname <> "admin.localhost:3000").
  { intros Heq. rewrite Heq in Hnolocalhost. discriminate. }
  rewrite (bool_decide_eq_false_2 _ Hport).
  reflexivity.
Qed.

(** [/admin/users] asked of [example.com] with [ADMIN_SUBDOMAIN] unset. *)
Lemma admin_route_off_admin_host_is_404_witness :
  middleware None {| pathname := "/admin/users"; host := Some "example.com" |} = response 404.
Proof.
  apply (admin_route_off_admin_host_is_404 None
           {| pathname := "/admin/users"; host := Some "example.com" |}).
  - reflexivity.
  - simpl. discriminate.
  - simpl. discriminate.
  - reflexivity.
Defined.

(** The other branches, on sample requests: the admin host is sent to the
    admin routes, and a developer's localhost may open them. *)
Example admin_host_is_redirected :
  middleware None {| pathname := "/users"; host := Some "admin.example.com" |}
  = redirect "/admin/users".
Proof. reflexivity. Qed.

Example localhost_may_open_admin :
  middleware None {| pathname := "/admin"; host := Some "localhost:3000" |} = next.
Proof. reflexivity. Qed.

Example configured_subdomain_is_used :
  middleware (Some "backoffice") {| pathname := "/admin"; host := Some "admin.example.com" |}
  = response 404.
Proof. reflexivity. Qed.

(** ** The middleware, branch by branch *)

Lemma startsWith_app (p s : string) : startsWith (p ++ s) p = true.
Proof.
  unfold startsWith. induction p as [|c p IH]; simpl.
  - destruct s; reflexivity.
  - destruct (ascii_dec c c) as [_|Hne]; [exact IH | contradiction].
Qed.

Lemma or_else_nonempty (a : option string) (b : string) : b <> "" -> or_else a b <> "".
Proof. intros Hb. destruct a as [[|c s]|]; simpl; try exact Hb. discriminate. Qed.

(** The piece before the first separator. *)
Lemma split_first_piece (sep : ascii) (label rest : string) :
  (forall c, c ∈ list_ascii_of_string label -> c <> sep) ->
  hd "" (split sep (label ++ String sep rest)) = label.
Proof.
  induction label as [|c label IH]; intros Hnosep; simpl.
  - rewrite bool_decide_eq_true_2 by reflexivity. reflexivity.
  - rewrite bool_decide_eq_false_2 by (apply Hnosep; left).
    assert (IH' := IH (fun c' Hc' => Hnosep c' (list_elem_of_further _ _ _ Hc'))).
    destruct (split sep (label ++ String sep rest)) as [|w ws]; simpl in *.
    + subst label. reflexivity.
    + subst label. reflexivity.
Qed.

(** The middleware answers with a status in one case only, and the status is
    404: an admin route, asked of a host that is neither the admin subdomain
    nor a local admin host, and that is not a localhost without "admin.".
    Every other request is redirected or continues. *)
Theorem middleware_404_exactly (ADMIN_SUBDOMAIN : option string)
    (request : NextRequest) (status : nat) :
  let hostname := or_else (host request) "" in
  middleware ADMIN_SUBDOMAIN request = response status
  <-> status = 404
      /\ startsWith (pathname request) "/admin" = true
      /\ hd "" (split "."%char hostname) <> or_else ADMIN_SUBDOMAIN "admin"
      /\ hostname <> "admin.localhost:3000"
      /\ hostname <> "admin.localhost"
      /\ (str_includes hostname "localhost" = false
          \/ str_includes hostname "admin." = true).
Proof.
  intros hostname. unfold middleware. fold hostname.
  destruct (startsWith (pathname request) "/admin");
    destruct (str_includes hostname "localhost");
    destruct (str_includes hostname "admin.");
    repeat case_bool_decide; simpl;
    (split;
     [ intros Heq; try discriminate Heq; injection Heq as <-; repeat split; auto
     | intros (-> & Hroute & Hsub & Hport & Hlocal & Hor);
       try discriminate Hroute; try contradiction;
       try (destruct Hor as [Hor|Hor]; discriminate Hor); reflexivity ]).
Qed.

(** A redirect is followed: the redirected request, asked of the same host,
    continues, so the middleware never redirects twice. *)
Theorem middleware_redirect_then_next (ADMIN_SUBDOMAIN : option string)
    (request : NextRequest) (target : string) :
  middleware ADMIN_SUBDOMAIN request = redirect target ->
  target = ("/admin" ++ pathname request)%string
  /\ middleware ADMIN_SUBDOMAIN {| pathname := target; host := host request |} = next.
Proof.
  unfold middleware. simpl host. simpl pathname.
  set (hostname := or_else (host request) "").
  destruct (bool_decide (hd "" (split "."%char hostname) = or_else ADMIN_SUBDOMAIN "admin")
            || (bool_decide (hostname = "admin.localhost:3000")
                || bool_decide (hostname = "admin.localhost"))) eqn:Hadmin.
  - destruct (startsWith (pathname request) "/admin") eqn:Hroute; simpl.
    + destruct (str_includes hostname "localhost" && negb (str_includes hostname "admin."));
        discriminate.
    + intros [= <-]. split; [reflexivity|].
      rewrite (startsWith_app "/admin" (pathname request)). simpl.
      destruct (str_includes hostname "localhost" && negb (str_includes hostname "admin."));
        reflexivity.
  - simpl. destruct (startsWith (pathname request) "/admin");
      destruct (str_includes hostname "localhost" && negb (str_includes hostname "admin."));
      discriminate.
Qed.

Lemma middleware_redirect_then_next_witness :
  middleware None {| pathname := "/admin/users"; host := Some "admin.example.com" |} = next.
Proof.
  apply (middleware_redirect_then_next None
           {| pathname := "/users"; host := Some "admin.example.com" |} "/admin/users").
  reflexivity.
Defined.

(** On a host whose first label is the configured admin subdomain nothing is
    refused: an admin route continues and any other path is redirected under
    "/admin". *)
Theorem middleware_on_admin_subdomain (ADMIN_SUBDOMAIN : option string)
    (path rest : string) :
  let adminSubdomain := or_else ADMIN_SUBDOMAIN "admin" in
  (forall c, c ∈ list_ascii_of_string adminSubdomain -> c <> "."%char) ->
  middleware ADMIN_SUBDOMAIN
    {| pathname := path; host := Some (adminSubdomain ++ String "."%char rest)%string |}
  = if startsWith path "/admin" then next else redirect ("/admin" ++ path).
Proof.
  intros adminSubdomain Hnodot.
  assert (Hne : adminSubdomain <> "") by (apply or_else_nonempty; discriminate).
  unfold middleware. simpl host. simpl pathname. fold adminSubdomain.
  assert (Hhost : or_else (Some (adminSubdomain ++ String "."%char rest)%string) ""
                  = (adminSubdomain ++ String "."%char rest)%string).
  { destruct adminSubdomain; [contradiction | reflexivity]. }
  rewrite Hhost, split_first_piece by exact Hnodot.
  rewrite (bool_decide_eq_true_2 _ eq_refl). simpl.
  destruct (startsWith path "/admin"); reflexivity.
Qed.

Lemma middleware_on_admin_subdomain_witness :
  middleware (Some "backoffice")
    {| pathname := "/reports"; host := Some "backoffice.example.com" |}
  = redirect "/admin/reports".
Proof.
  apply (middleware_on_admin_subdomain (Some "backoffice") "/reports" "example.com").
  intros c Hc. cbv in Hc.
  repeat (apply elem_of_cons in Hc as [->|Hc]; [discriminate|]). inversion Hc.
Defined.

(** A request without a [host] header, or with an empty one, is never on the
    admin subdomain, whatever [ADMIN_SUBDOMAIN] is: its admin routes get 404
    and its other paths continue. *)
Theorem middleware_without_host (ADMIN_SUBDOMAIN : option string) (request : NextRequest) :
  host request = None \/ host request = Some "" ->
  middleware ADMIN_SUBDOMAIN request
  = if startsWith (pathname request) "/admin" then response 404 else next.
Proof.
  intros Hhost. unfold middleware.
  assert (or_else (host request) "" = "") as -> by (destruct Hhost as [-> | ->]; reflexivity).
  assert (Hne : or_else ADMIN_SUBDOMAIN "admin" <> "") by (apply or_else_nonempty; discriminate).
  simpl. rewrite bool_decide_eq_false_2 by (intros Heq; apply Hne; symmetry; exact Heq).
  simpl. destruct (startsWith (pathname request) "/admin"); reflexivity.
Qed.

Lemma middleware_without_host_witness :
  middleware (Some "backoffice") {| pathname := "/admin"; host := None |} = response 404.
Proof.
  apply (middleware_without_host (Some "backoffice") {| pathname := "/admin"; host := None |}).
  left. reflexivity.
Defined.

(** The development exception looks for "localhost" anywhere in the host
    name: an admin route continues on every host whose name contains
    "localhost" and does not contain "admin.", whatever else the name is. *)
Theorem middleware_localhost_anywhere (ADMIN_SUBDOMAIN : option string)
    (request : NextRequest) :
  let hostname := or_else (host request) "" in
  startsWith (pathname request) "/admin" = true ->
  str_includes hostname "localhost" = true ->
  str_includes hostname "admin." = false ->
  middleware ADMIN_SUBDOMAIN request = next.
Proof.
  intros hostname Hroute Hlocal Hnoadmin. unfold middleware. fold hostname.
  rewrite Hroute, Hlocal, Hnoadmin.
  destruct (bool_decide _ || (bool_decide _ || bool_decide _)); reflexivity.
Qed.

Lemma middleware_localhost_anywhere_witness :
  middleware None {| pathname := "/admin"; host := Some "localhost.example.com" |} = next.
Proof.
  apply (middleware_localhost_anywhere None
           {| pathname := "/admin"; host := Some "localhost.example.com" |});
    reflexivity.
Defined.

(** ** Screens *)

Lemma navigateToScreen_index (i : Z) : snd (navigateToScreen i) = i.
Proof. unfold navigateToScreen. destruct (screen_at i) as [[|c s]|]; reflexivity. Qed.

Lemma gesture_stays_on_screens (st : Status) (g : Gesture) (currentScreen : Z) :
  (0 <= currentScreen <= 3)%Z -> (0 <= snd (gesture st g currentScreen) <= 3)%Z.
Proof.
  intros Hc. destruct g; unfold gesture.
  - destruct (Z.ltb_spec currentScreen 3); simpl; [rewrite navigateToScreen_index|]; lia.
  - destruct (Z.ltb_spec 0 currentScreen); simpl; [rewrite navigateToScreen_index|]; lia.
  - destruct st; simpl; lia.
  - simpl. lia.
  - simpl. lia.
Qed.

(** Whatever the user swipes and clicks, [currentScreen] stays one of the
    four screens 0..3: the swipe callbacks stop at both ends and the arrows
    name existing screens. *)
Theorem gestures_stay_on_screens (st : Status) (gs : list Gesture) (currentScreen : Z) :
  (0 <= currentScreen <= 3)%Z -> (0 <= gestures st gs currentScreen <= 3)%Z.
Proof.
  unfold gestures. revert currentScreen.
  induction gs as [|g gs IH]; intros c Hc; simpl; [exact Hc|].
  apply IH, gesture_stays_on_screens, Hc.
Qed.

Lemma gestures_stay_on_screens_witness :
  (0 <= gestures active [onSwipeUp; onSwipeUp; onSwipeUp; onSwipeUp; onSwipeDown] 0 <= 3)%Z.
Proof.
  apply (gestures_stay_on_screens active
           [onSwipeUp; onSwipeUp; onSwipeUp; onSwipeUp; onSwipeDown] 0).
  lia.
Defined.

(** On the four screens a swipe up and a swipe down undo each other away
    from the ends, and a gesture scrolls the window to the top exactly when
    it lands on screen 0; landing on any other screen scrolls that screen's
    element into view. *)
Theorem swipes_undo_and_scroll (st : Status) (g : Gesture) (currentScreen : Z) :
  (0 <= currentScreen <= 3)%Z ->
  ((currentScreen < 3)%Z ->
     snd (gesture st onSwipeDown (snd (gesture st onSwipeUp currentScreen))) = currentScreen)
  /\ ((0 < currentScreen)%Z ->
        snd (gesture st onSwipeUp (snd (gesture st onSwipeDown currentScreen))) = currentScreen)
  /\ (forall s c', gesture st g currentScreen = (Some s, c') ->
        (s = scrollTo_top <-> c' = 0%Z)
        /\ (c' <> 0%Z -> exists targetId,
              s = scrollIntoView targetId /\ screens !! Z.to_nat c' = Some targetId)).
Proof.
  intros Hc.
  assert (Hcases : (currentScreen = 0 \/ currentScreen = 1 \/ currentScreen = 2
                    \/ currentScreen = 3)%Z) by lia.
  split; [|split].
  - intros Hlt. destruct Hcases as [-> | [-> | [-> | ->]]]; try reflexivity; lia.
  - intros Hgt. destruct Hcases as [-> | [-> | [-> | ->]]]; try reflexivity; lia.
  - intros s c' Hg.
    destruct Hcases as [-> | [-> | [-> | ->]]]; destruct g; destruct st;
      cbv in Hg; try discriminate Hg; injection Hg as <- <-;
      (split;
       [ split; intros H0; first [discriminate H0 | reflexivity]
       | intros Hne;
         first [ exfalso; apply Hne; reflexivity | eexists; split; reflexivity ] ]).
Qed.

Lemma swipes_undo_and_scroll_witness :
  snd (gesture active onSwipeDown (snd (gesture active onSwipeUp 1))) = 1%Z.
Proof.
  destruct (swipes_undo_and_scroll active onSwipeUp 1) as [Hundo _]; [lia|].
  apply Hundo. lia.
Defined.

(** ** The user session *)

Lemma makeUserId_nonempty (now : Z) (random36 : string) : makeUserId now random36 <> "".
Proof. unfold makeUserId. discriminate. Qed.

Lemma initSession_stored (now : Z) (random36 newUsername : string)
    (localStorage : gmap string string) :
  let out := initSession now random36 newUsername localStorage in
  out.1 !! "userId" = Some out.2.1
  /\ out.1 !! "username" = Some out.2.2
  /\ out.2.1 <> "".
Proof.
  unfold initSession.
  destruct (localStorage !! "userId") as [[|c1 s1]|] eqn:Hu;
    destruct (localStorage !! "username") as [[|c2 s2]|] eqn:Hn; simpl;
    repeat split;
    try (rewrite lookup_insert_ne by discriminate; apply lookup_insert_eq);
    try apply lookup_insert_eq;
    try apply makeUserId_nonempty;
    try assumption; try discriminate.
Qed.

(** After the session effect ran, [localStorage] holds under "userId" and
    "username" exactly the identity the page uses, the userId is not empty,
    and no other key of the storage was touched.  A stored userId whose
    username is missing or empty is not kept: a new identity replaces it. *)
Theorem session_is_stored (now : Z) (random36 newUsername : string)
    (localStorage : gmap string string) :
  let out := initSession now random36 newUsername localStorage in
  out.1 !! "userId" = Some out.2.1
  /\ out.1 !! "username" = Some out.2.2
  /\ out.2.1 <> ""
  /\ (forall key, key <> "userId" -> key <> "username" -> out.1 !! key = localStorage !! key)
  /\ (localStorage !! "username" = None \/ localStorage !! "username" = Some "" ->
        out.2 = (makeUserId now random36, newUsername)).
Proof.
  unfold initSession.
  destruct (localStorage !! "userId") as [[|c1 s1]|] eqn:Hu;
    destruct (localStorage !! "username") as [[|c2 s2]|] eqn:Hn; simpl;
    repeat split;
    try (rewrite lookup_insert_ne by discriminate; apply lookup_insert_eq);
    try apply lookup_insert_eq;
    try apply makeUserId_nonempty;
    try assumption; try discriminate;
    try (intros key Hk1 Hk2; rewrite !lookup_insert_ne by congruence; reflexivity);
    try reflexivity;
    try (intros [H|H]; discriminate H).
Qed.

(** A reload keeps the identity: running the session effect again on the
    storage it left, at any later time and with any other random values,
    gives the same userId and username and leaves the storage as it is,
    provided the username in use is not empty. *)
Theorem session_survives_reload (now now' : Z) (random36 random36' newUsername newUsername' : string)
    (localStorage : gmap string string) :
  let out := initSession now random36 newUsername localStorage in
  out.2.2 <> "" ->
  initSession now' random36' newUsername' out.1 = out.
Proof.
  intros out Hname.
  destruct (initSession_stored now random36 newUsername localStorage)
    as (Hu & Hn & Hne).
  fold out in Hu, Hn, Hne.
  destruct out as [ls [u n]]. simpl in *.
  unfold initSession. rewrite Hu, Hn.
  destruct u; [contradiction|]. destruct n; [contradiction|]. reflexivity.
Qed.

Lemma session_survives_reload_witness :
  initSession 1714557700000 "zzzzzzzzz" "Curious Owl"
    (initSession 1714557600000 "k3v9x0p2q" "Brave Fox" ∅).1
  = initSession 1714557600000 "k3v9x0p2q" "Brave Fox" ∅.
Proof.
  apply (session_survives_reload 1714557600000 1714557700000 "k3v9x0p2q" "zzzzzzzzz"
           "Brave Fox" "Curious Owl" ∅).
  discriminate.
Defined.

(** ** The user's own rating *)

Lemma find_app {A : Type} (p : A -> bool) (l1 l2 : list A) :
  find p (l1 ++ l2) = match find p l1 with Some c => Some c | None => find p l2 end.
Proof.
  induction l1 as [|a l1 IH]; simpl; [reflexivity|].
  destruct (p a); [reflexivity | exact IH].
Qed.

Lemma find_none {A : Type} (p : A -> bool) (l : list A) :
  (forall c, c ∈ l -> p c = false) -> find p l = None.
Proof.
  induction l as [|a l IH]; intros Hnone; simpl; [reflexivity|].
  rewrite Hnone by left. apply IH. intros c Hc. apply Hnone. right. exact Hc.
Qed.

(** Dropping entries that the predicate rejects does not change what [find]
    returns. *)
Lemma find_filter_rejected {A : Type} (p : A -> bool) (Q : A -> Prop)
    `{forall c, Decision (Q c)} (l : list A) :
  (forall c, c ∈ l -> ~ Q c -> p c = false) ->
  find p (filter Q l) = find p l.
Proof.
  induction l as [|a l IH]; intros Hrej; [reflexivity|].
  assert (IH' : find p (filter Q l) = find p l).
  { apply IH. intros c Hc. apply Hrej. right. exact Hc. }
  destruct (decide (Q a)) as [Hq|Hq].
  - rewrite filter_cons_True by exact Hq. simpl. rewrite IH'. reflexivity.
  - rewrite filter_cons_False by exact Hq. simpl.
    rewrite (Hrej a) by (left || exact Hq). exact IH'.
Qed.

Lemma handle_keeps_rating_in_sync (userId : string) (e : Event) (st : PageState) :
  rating_in_sync userId st -> rating_in_sync userId (handle userId e st).
Proof.
  intros (a & Ha & Hr). unfold rating_in_sync.
  destruct e as [r|c|c|p|pid].
  - exists (with_ratings a (push (filter (fun r' => Rating.userId r' <> Rating.userId r)
                                         (ratings a)) r)).
    unfold handle. simpl updater. rewrite Ha. simpl.
    unfold rating_of_user. simpl ratings. unfold push. rewrite find_app.
    case_bool_decide as Hown; simpl; (split; [reflexivity|]).
    + rewrite find_none; [simpl; rewrite bool_decide_eq_true_2 by exact Hown; reflexivity|].
      intros c Hc. apply list_elem_of_filter in Hc as [Hne _].
      apply bool_decide_eq_false. congruence.
    + rewrite find_filter_rejected.
      * rewrite Hr. unfold rating_of_user.
        destruct (find _ (ratings a)); [reflexivity|].
        simpl. rewrite bool_decide_eq_false_2 by exact Hown. reflexivity.
      * intros c _ Hc. apply bool_decide_eq_false. intros Hcu. apply Hc.
        intros Heq. apply Hown. congruence.
  - destruct (comment_added_cases c a) as [[_ Heq] | (i & old & _ & _ & _ & Heq)];
      eexists; unfold handle; simpl updater; rewrite Ha, Heq;
      (split; [case_bool_decide; reflexivity|]);
      case_bool_decide; simpl; exact Hr.
  - eexists. unfold handle. simpl updater. rewrite Ha. simpl. split; [reflexivity|exact Hr].
  - eexists. unfold handle. simpl updater. rewrite Ha. simpl. split; [reflexivity|exact Hr].
  - eexists. unfold handle. simpl updater. rewrite Ha. simpl. split; [reflexivity|exact Hr].
Qed.

Lemma handle_all_keeps_rating_in_sync (userId : string) (es : list Event) (st : PageState) :
  rating_in_sync userId st -> rating_in_sync userId (handle_all userId es st).
Proof.
  unfold handle_all. revert st.
  induction es as [|e es IH]; intros st Hst; [exact Hst|].
  simpl. apply IH, handle_keeps_rating_in_sync, Hst.
Qed.

(** Once the snapshot is loaded on a page that had no rating of the user
    yet, [userRating] follows the activity: after any sequence of events it
    is the rating of the user that the activity holds, and [null] exactly
    when the activity holds none. *)
Theorem own_rating_follows_activity (userId : string) (activityData : Activity)
    (es : list Event) (p : Page) :
  userRating (state p) = None ->
  let st := handle_all userId es (state (loadActivity userId (Some activityData) p)) in
  exists a, activity st = Some a /\ userRating st = rating_of_user a userId.
Proof.
  intros Hfresh. apply handle_all_keeps_rating_in_sync.
  exists activityData. split; [reflexivity|]. simpl.
  destruct (rating_of_user activityData userId); [reflexivity | exact Hfresh].
Qed.

Lemma own_rating_follows_activity_witness :
  exists a,
    activity (handle_all "a"
                [rating_added (rating_of "b" 2%float 2%float); rating_added (rating_of "a" 1%float 1%float)]
                (state (loadActivity "a" (Some two_ratings) initial_page))) = Some a
    /\ userRating (handle_all "a"
                [rating_added (rating_of "b" 2%float 2%float); rating_added (rating_of "a" 1%float 1%float)]
                (state (loadActivity "a" (Some two_ratings) initial_page)))
       = rating_of_user a "a".
Proof.
  apply (own_rating_follows_activity "a" two_ratings
           [rating_added (rating_of "b" 2%float 2%float); rating_added (rating_of "a" 1%float 1%float)]
           initial_page).
  reflexivity.
Defined.

(** ** Repeated and reordered events *)

Lemma findIndex_first {A : Type} (p : A -> bool) (l : list A) (i : nat) (c : A) :
  l !! i = Some c -> p c = true ->
  (forall j c', j < i -> l !! j = Some c' -> p c' = false) ->
  findIndex p l = Z.of_nat i.
Proof.
  intros Hi Hc Hfirst.
  destruct (findIndex_spec p l) as [[Hall _] | (k & d & Hk & Hd & Hkfirst & ->)].
  - rewrite Forall_forall in Hall.
    rewrite Hall in Hc by (eapply list_elem_of_lookup_2, Hi). discriminate.
  - destruct (Nat.lt_trichotomy k i) as [Hlt | [-> | Hgt]].
    + rewrite (Hfirst k d Hlt Hk) in Hd. discriminate.
    + reflexivity.
    + rewrite (Hkfirst i c Hgt Hi) in Hc. discriminate.
Qed.

Lemma with_comments_twice a c1 c2 :
  with_comments (with_comments a c1) c2 = with_comments a c2.
Proof. reflexivity. Qed.

Lemma with_participants_twice a p1 p2 :
  with_participants (with_participants a p1) p2 = with_participants a p2.
Proof. reflexivity. Qed.

(** A state whose first comment with the incoming userId and text is the
    incoming comment itself is left as it is. *)
Lemma comment_added_present (comment : Comment.t) (a : Activity) (k : nat) :
  comments a !! k = Some comment ->
  (forall j c, j < k -> comments a !! j = Some c -> same_user_and_text comment c = false) ->
  comment_added_updater comment (Some a) = Some a.
Proof.
  intros Hk Hfirst. unfold comment_added_updater.
  rewrite (findIndex_first _ _ k comment Hk); [|apply same_user_and_text_true; auto|exact Hfirst].
  replace (0 <=? Z.of_nat k)%Z with true by (symmetry; apply Z.leb_le; lia).
  unfold assign. rewrite Nat2Z.id, list_insert_id by exact Hk.
  rewrite with_comments_same. reflexivity.
Qed.

Lemma comment_added_twice (comment : Comment.t) (s : option Activity) :
  comment_added_updater comment (comment_added_updater comment s)
  = comment_added_updater comment s.
Proof.
  destruct s as [a|]; [|reflexivity].
  destruct (comment_added_cases comment a)
    as [[_ ->] | (i & old & Hi & _ & Hfirst & ->)].
  - apply (comment_added_present _ _
             (length (filter (fun c => Comment.userId c <> Comment.userId comment) (comments a)))).
    + simpl. rewrite lookup_app_r by lia. rewrite Nat.sub_diag. reflexivity.
    + simpl. intros j c Hj Hc. rewrite lookup_app_l in Hc by exact Hj.
      apply list_elem_of_lookup_2, list_elem_of_filter in Hc as [Hne _].
      apply same_user_and_text_false. intros [Hu _]. contradiction.
  - apply (comment_added_present _ _ i).
    + simpl. apply list_lookup_insert_eq. eapply lookup_lt_Some, Hi.
    + simpl. intros j c Hj Hc. rewrite list_lookup_insert_ne in Hc by lia.
      apply (Hfirst j c Hj Hc).
Qed.

Lemma comment_voted_twice (comment : Comment.t) (s : option Activity) :
  comment_voted_updater comment (comment_voted_updater comment s)
  = comment_voted_updater comment s.
Proof.
  destruct s as [a|]; [|reflexivity].
  unfold comment_voted_updater. rewrite with_comments_twice. simpl. f_equal. f_equal.
  rewrite map_map. apply map_ext. intros c.
  destruct (bool_decide (Comment.id c = Comment.id comment)) eqn:Hc.
  - rewrite bool_decide_eq_true_2 by reflexivity. reflexivity.
  - rewrite Hc. reflexivity.
Qed.

(** Every one of the five updaters is idempotent: a payload that is
    delivered twice in a row leaves the activity as the first delivery left
    it, with equal arrays in equal order. *)
Theorem updater_is_idempotent (e : Event) (s : option Activity) :
  updater e (updater e s) = updater e s.
Proof.
  destruct e as [r|c|c|p|pid]; unfold updater.
  - apply rating_added_absorbs. reflexivity.
  - apply comment_added_twice.
  - apply comment_voted_twice.
  - destruct s as [a|]; [|reflexivity].
    unfold participant_joined_updater. rewrite with_participants_twice. simpl.
    unfold push. rewrite filter_app, (filter_cons_False _ p), filter_nil by auto.
    rewrite app_nil_r, list_filter_filter_l by auto. reflexivity.
  - destruct s as [a|]; [|reflexivity].
    unfold participant_left_updater. rewrite with_participants_twice. simpl.
    rewrite list_filter_filter_l by auto. reflexivity.
Qed.

(** ** Counts *)

(** Removing the entries with key [k] from a list with unique keys removes
    one entry if the key is present and none otherwise. *)
Lemma length_filter_key {A : Type} (key : A -> string) (k : string) (l : list A) :
  NoDup (map key l) ->
  length (filter (fun c => key c <> k) l)
  = if bool_decide (k ∈ map key l) then length l - 1 else length l.
Proof.
  induction l as [|a l IH]; intros Hnd; [reflexivity|].
  simpl in Hnd. apply NoDup_cons in Hnd as [Hnotin Hnd]. specialize (IH Hnd).
  destruct (decide (key a = k)) as [Heq|Hne].
  - rewrite filter_cons_False by (intros H; apply H, Heq).
    rewrite bool_decide_eq_true_2 by (simpl; rewrite Heq; left).
    rewrite IH, bool_decide_eq_false_2 by (rewrite <- Heq; exact Hnotin).
    simpl. lia.
  - rewrite filter_cons_True by exact Hne. simpl length. rewrite IH.
    destruct (decide (k ∈ map key l)) as [Hin|Hnin].
    + rewrite !bool_decide_eq_true_2; [|simpl; right; exact Hin|exact Hin].
      destruct l; [inversion Hin | simpl; lia].
    + rewrite !bool_decide_eq_false_2; [reflexivity| |exact Hnin].
      simpl. intros Hin. apply elem_of_cons in Hin as [Heq|Hin]; [congruence | contradiction].
Qed.

Lemma length_upsert {A : Type} (key : A -> string) (l : list A) (v : A) :
  NoDup (map key l) ->
  length (push (filter (fun c => key c <> key v) l) v)
  = if bool_decide (key v ∈ map key l) then length l else S (length l).
Proof.
  intros Hnd. unfold push. rewrite length_app, length_filter_key by exact Hnd. simpl.
  case_bool_decide as Hin; [|lia].
  destruct l; [inversion Hin | simpl; lia].
Qed.

(** With one rating and one comment per user, the counts of the results
    view count users: a [rating_added] (a [comment_added]) raises the rating
    (comment) count by one when the user had none and leaves it as it is
    when the user had one, and neither event changes any other count. *)
Theorem counts_follow_users (a : Activity) (r : Rating.t) (c : Comment.t) :
  one_per_user a ->
  (exists a', updater (rating_added r) (Some a) = Some a'
     /\ totalRatings (stats a')
        = (if bool_decide (Rating.userId r ∈ map Rating.userId (ratings a))
           then totalRatings (stats a) else S (totalRatings (stats a)))
     /\ totalComments (stats a') = totalComments (stats a)
     /\ totalParticipants (stats a') = totalParticipants (stats a))
  /\ (exists a', updater (comment_added c) (Some a) = Some a'
        /\ totalComments (stats a')
           = (if bool_decide (Comment.userId c ∈ map Comment.userId (comments a))
              then totalComments (stats a) else S (totalComments (stats a)))
        /\ totalRatings (stats a') = totalRatings (stats a)
        /\ totalParticipants (stats a') = totalParticipants (stats a)).
Proof.
  intros [Hr Hc]. split.
  - eexists. split; [reflexivity|]. repeat split. simpl.
    apply (length_upsert Rating.userId), Hr.
  - unfold updater.
    destruct (comment_added_cases c a) as [[_ ->] | (i & old & Hi & Hold & _ & ->)];
      eexists; (split; [reflexivity|]); repeat split; simpl.
    + apply (length_upsert Comment.userId), Hc.
    + rewrite length_insert.
      apply same_user_and_text_true in Hold as [Hu _].
      rewrite bool_decide_eq_true_2; [reflexivity|].
      rewrite <- Hu, map_fmap. apply list_elem_of_fmap_2.
      eapply list_elem_of_lookup_2, Hi.
Qed.

Lemma counts_follow_users_witness :
  exists a', updater (rating_added (rating_of "c" 1%float 1%float)) (Some two_ratings) = Some a'
    /\ totalRatings (stats a') = 3.
Proof.
  destruct (counts_follow_users two_ratings (rating_of "c" 1%float 1%float) comment_c2)
    as [(a' & Ha' & Hn & _) _].
  - split; simpl; [|apply NoDup_nil_2].
    apply NoDup_cons. split; [|apply NoDup_singleton].
    intros H. apply list_elem_of_singleton in H. discriminate.
  - exists a'. split; [exact Ha'|]. rewrite Hn. reflexivity.
Defined.

(** ** Events that do not meet *)

(** Ratings of two different users can arrive in either order: in both
    orders the resulting ratings are the stored ratings of everyone else
    followed by the two new ratings, which are swapped between the orders,
    and no other field changes.  A rating and an event that is not a rating
    commute exactly. *)
Theorem rating_events_commute (a : Activity) (r1 r2 : Rating.t) (e : Event) :
  Rating.userId r1 <> Rating.userId r2 ->
  let others :=
    filter (fun r => Rating.userId r <> Rating.userId r1 /\ Rating.userId r <> Rating.userId r2)
           (ratings a) in
  (exists a12 a21,
     updater (rating_added r2) (updater (rating_added r1) (Some a)) = Some a12
     /\ updater (rating_added r1) (updater (rating_added r2) (Some a)) = Some a21
     /\ ratings a12 = others ++ [r1; r2]
     /\ ratings a21 = others ++ [r2; r1]
     /\ ratings a12 ≡ₚ ratings a21
     /\ totalRatings (stats a12) = totalRatings (stats a21)
     /\ same_except_ratings a a12
     /\ same_except_ratings a a21)
  /\ match e with
     | rating_added _ => True
     | _ => updater (rating_added r1) (updater e (Some a))
            = updater e (updater (rating_added r1) (Some a))
     end.
Proof.
  intros Hne others. split.
  - assert (H12 :
      push (filter (fun r => Rating.userId r <> Rating.userId r2)
              (push (filter (fun r => Rating.userId r <> Rating.userId r1) (ratings a)) r1)) r2
      = others ++ [r1; r2]).
    { unfold push. rewrite !filter_app.
      rewrite (filter_cons_True _ r1), !filter_nil by auto.
      rewrite list_filter_filter, <- app_assoc. f_equal.
      apply list_filter_iff. intros r. tauto. }
    assert (H21 :
      push (filter (fun r => Rating.userId r <> Rating.userId r1)
              (push (filter (fun r => Rating.userId r <> Rating.userId r2) (ratings a)) r2)) r1
      = others ++ [r2; r1]).
    { unfold push. rewrite !filter_app.
      rewrite (filter_cons_True _ r2), !filter_nil by auto.
      rewrite list_filter_filter, <- app_assoc. reflexivity. }
    assert (Hperm : others ++ [r1; r2] ≡ₚ others ++ [r2; r1])
      by (apply Permutation_app_head, perm_swap).
    exists (with_ratings a (others ++ [r1; r2])), (with_ratings a (others ++ [r2; r1])).
    split; [rewrite <- H12; reflexivity|]. split; [rewrite <- H21; reflexivity|].
    split; [reflexivity|]. split; [reflexivity|]. split; [exact Hperm|].
    split; [apply Permutation_length, Hperm|].
    split; repeat split.
  - destruct e as [r|c|c|p|pid]; try exact I; try reflexivity.
    unfold updater, comment_added_updater, rating_added_updater. simpl comments.
    destruct (0 <=? findIndex (same_user_and_text c) (comments a))%Z; reflexivity.
Qed.

Lemma rating_events_commute_witness :
  exists a12 a21,
    updater (rating_added (rating_of "b" 2%float 2%float))
            (updater (rating_added (rating_of "a" 0%float 0%float)) (Some new_activity)) = Some a12
    /\ updater (rating_added (rating_of "a" 0%float 0%float))
               (updater (rating_added (rating_of "b" 2%float 2%float)) (Some new_activity)) = Some a21
    /\ ratings a12 ≡ₚ ratings a21.
Proof.
  destruct (rating_events_commute new_activity (rating_of "a" 0%float 0%float)
              (rating_of "b" 2%float 2%float) (participant_left "a"))
    as [(a12 & a21 & H12 & H21 & _ & _ & Hperm & _) _].
  - discriminate.
  - exists a12, a21. repeat split; assumption.
Defined.

(** ** The mobile popup *)

Lemma find_some {A : Type} (p : A -> bool) (l : list A) (c : A) :
  find p l = Some c -> c ∈ l /\ p c = true.
Proof.
  intros Hf. pose proof (find_scan p l) as Hscan. rewrite Hf in Hscan.
  destruct Hscan as (i & Hi & Hc & _). split; [eapply list_elem_of_lookup_2, Hi | exact Hc].
Qed.

(** The popup shows a stored comment with the id held in
    [mobilePopupComment], never a comment whose id is empty.  With unique
    comment ids a tap on the map dot of a user opens that user's comment,
    provided the comment is rendered in the list and its id is not empty. *)
Theorem popup_shows_the_tapped_comment (a : Activity) (userId : string) (v : ViewState)
    (c : Comment.t) :
  (popupComment a v = Some c ->
     c ∈ comments a /\ mobilePopupComment v = Some (Comment.id c) /\ Comment.id c <> "")
  /\ (NoDup (map Comment.id (comments a)) ->
      comment_of_user a userId = Some c ->
      includes (visibleCommentIds v) (Comment.id c) = true ->
      Comment.id c <> "" ->
      popupComment a (handleMobileMapDotTap a userId v) = Some c).
Proof.
  split.
  - unfold popupComment. destruct (mobilePopupComment v) as [[|ch s]|]; try discriminate.
    intros Hf. apply find_some in Hf as [Hin Hid].
    apply bool_decide_eq_true in Hid. rewrite Hid. repeat split; [exact Hin | discriminate].
  - intros Hids Hc Hvisible Hid. unfold handleMobileMapDotTap, popupComment.
    rewrite Hc, Hvisible. simpl.
    destruct (Comment.id c) as [|ch s] eqn:Hidc; [contradiction|].
    apply find_some in Hc as [Hin _].
    destruct (find (fun c' => bool_decide (Comment.id c' = String ch s)) (comments a))
      as [c'|] eqn:Hf.
    + apply find_some in Hf as [Hin' Hid']. apply bool_decide_eq_true in Hid'.
      f_equal. apply (NoDup_key_inj Comment.id (comments a)); try assumption. congruence.
    + pose proof (find_scan (fun c' => bool_decide (Comment.id c' = String ch s)) (comments a))
        as Hscan.
      rewrite Hf in Hscan. destruct Hscan as [Hnone _].
      specialize (Hnone c Hin). apply bool_decide_eq_false in Hnone. contradiction.
Qed.

(** ** Fetching one activity *)

(** Fetching by URL name and fetching by id read a reply the same way when
    it carries an activity.  Where fetching by id throws, fetching by URL
    name gives [null] for a 404 and for a parsed body without success or
    without data, and throws the same value in every other case. *)
Theorem by_url_name_agrees_with_by_id (r : Fetched Activity) :
  (forall a, getActivity r = inr a <-> getActivityByUrlName r = inr (Some a))
  /\ (forall thrown, getActivityByUrlName r = inl thrown -> getActivity r = inl thrown)
  /\ (getActivityByUrlName r = inr None
      <-> (exists json, r = fetch_response false 404 json)
          \/ (exists status body,
                r = fetch_response true status (inr body)
                /\ (ApiResponse.success body = false \/ ApiResponse.data body = None))).
Proof.
  destruct r as [reason | [|] status [reason | [[|] [d|] err]]]; simpl;
    repeat split; intros;
    repeat match goal with
      | H : _ \/ _ |- _ => destruct H
      | H : exists _, _ |- _ => destruct H
      | H : _ /\ _ |- _ => destruct H
      | H : context [bool_decide ?P] |- _ => destruct (bool_decide_reflect P)
      | |- context [bool_decide ?P] => destruct (bool_decide_reflect P)
      end;
    simpl in *; try congruence;
    try (left; eexists; subst; reflexivity);
    try (right; eexists; eexists; split; [reflexivity|]; simpl; auto; fail);
    simplify_eq/=.
Qed.

(** Bob's dot is tapped while both comments are rendered. *)
Example popup_after_tap :
  popupComment two_commenters
    (handleMobileMapDotTap two_commenters "b"
       {| hoveredCommentId := None; selectedCommentId := None;
          visibleCommentIds := ["c1"; "c2"]; mobilePopupComment := None |})
  = Some comment_c2.
Proof. reflexivity. Qed.

(** ** URL names of created and updated activities *)

Lemma includes_true (l : list string) (v : string) : includes l v = true <-> v ∈ l.
Proof.
  induction l as [|a l IH]; simpl.
  - split; [discriminate | intros H; inversion H].
  - case_bool_decide as Ha.
    + split; [intros _; subst; left | reflexivity].
    + rewrite IH. split; [intros H; right; exact H|].
      intros H. apply elem_of_cons in H as [->|H]; [contradiction | exact H].
Qed.

Lemma other_names_spec (activityId name : string) (existingActivities : list Activity) :
  name ∈ map urlName (filter (fun a => id a <> activityId) existingActivities)
  <-> exists other, other ∈ existingActivities /\ id other <> activityId /\ urlName other = name.
Proof.
  rewrite map_fmap, list_elem_of_fmap. split.
  - intros (other & -> & Hin). apply list_elem_of_filter in Hin as [Hid Hin].
    exists other. repeat split; assumption.
  - intros (other & Hin & Hid & <-). exists other. split; [reflexivity|].
    apply list_elem_of_filter. split; assumption.
Qed.

(* The check of the URL name ends in "Activity URL name already exists"
   exactly for a valid, conflict-free name of another activity. *)
Lemma urlName_already_exists_iff `{UrlUtils} (activityId : string)
    (formUrlName : option string) (existingActivities : list Activity) :
  updateActivity_urlName activityId formUrlName (inr existingActivities)
  = inl (Error "Activity URL name already exists")
  <-> exists name other,
        formUrlName = Some name /\ name <> ""
        /\ isValidActivityName (cleanActivityName name) = true
        /\ hasRouteConflict (cleanActivityName name) = false
        /\ other ∈ existingActivities
        /\ id other <> activityId
        /\ urlName other = cleanActivityName name.
Proof.
  unfold updateActivity_urlName.
  destruct formUrlName as [[|c s]|].
  - split; [discriminate|]. intros (name & other & [= <-] & Hne & _). contradiction.
  - set (name := String c s).
    destruct (isValidActivityName (cleanActivityName name)) eqn:Hvalid; simpl.
    + destruct (hasRouteConflict (cleanActivityName name)) eqn:Hconflict.
      * split; [discriminate|]. intros (n & other & [= <-] & _ & _ & Hc & _). congruence.
      * destruct (includes _ (cleanActivityName name)) eqn:Hinc.
        -- split; [|reflexivity]. intros _.
           apply includes_true, other_names_spec in Hinc as (other & Hin & Hid & Hname).
           exists name, other. repeat split; try assumption. discriminate.
        -- split.
           ++ destruct (cleanActivityName name); discriminate.
           ++ intros (n & other & [= <-] & _ & _ & _ & Hin & Hid & Hname).
              assert (includes (map urlName (filter (fun a => id a <> activityId)
                                               existingActivities))
                               (cleanActivityName name) = true) as Habs.
              { apply includes_true, other_names_spec. exists other. auto. }
              congruence.
    + split; [discriminate|]. intros (n & other & [= <-] & _ & Hv & _). congruence.
  - split; [discriminate|]. intros (name & other & Hf & _). discriminate.
Qed.

(** [updateActivity] throws "Activity URL name already exists" without
    sending the PATCH request exactly when a URL name is given, its cleaned
    form is valid and free of route conflicts, and an activity other than
    the one being updated has that cleaned form as its URL name; the
    activity's own URL name never counts.  Whenever a PATCH request is
    sent, no such other activity exists, and what is thrown then is decided
    by the reply alone: a reply that is not [ok] gives "Failed to update
    activity", and a reply without success or data gives the reply's own
    error message, whatever it says. *)
Theorem update_refuses_before_patch `{UrlUtils} (activityId : string)
    (formData : ActivityFormData.t) (existingActivities : list Activity)
    (fetch : string -> ActivityData.t -> Fetched Activity) :
  (updateActivity activityId formData (inr existingActivities) fetch
   = (None, inl (Error "Activity URL name already exists"))
   <-> exists name other,
         ActivityFormData.urlName formData = Some name /\ name <> ""
         /\ isValidActivityName (cleanActivityName name) = true
         /\ hasRouteConflict (cleanActivityName name) = false
         /\ other ∈ existingActivities
         /\ id other <> activityId
         /\ urlName other = cleanActivityName name)
  /\ (forall request,
        fst (updateActivity activityId formData (inr existingActivities) fetch) = Some request ->
        fst request = activityId
        /\ (forall name other,
              ActivityFormData.urlName formData = Some name -> name <> "" ->
              other ∈ existingActivities -> id other <> activityId ->
              urlName other <> cleanActivityName name)
        /\ (forall status json,
              fetch activityId (snd request) = fetch_response false status json ->
              snd (updateActivity activityId formData (inr existingActivities) fetch)
              = inl (Error "Failed to update activity"))
        /\ (forall status success message,
              fetch activityId (snd request)
              = fetch_response true status
                  (inr (ApiResponse.mk success None (Some message))) ->
              message <> "" ->
              snd (updateActivity activityId formData (inr existingActivities) fetch)
              = inl (Error message))).
Proof.
  pose proof (urlName_already_exists_iff activityId (ActivityFormData.urlName formData)
                existingActivities) as Hcheck.
  unfold updateActivity.
  destruct (updateActivity_urlName activityId (ActivityFormData.urlName formData)
              (inr existingActivities)) as [thrown | name'] eqn:Hname.
  - split.
    + rewrite <- Hcheck. split; intros E; congruence.
    + intros request Hsent. discriminate Hsent.
  - split.
    + split; [discriminate|]. intros Hex. apply Hcheck in Hex. discriminate Hex.
    + intros request [= <-]. simpl fst. simpl snd.
      split; [reflexivity|]. split; [|split].
      * intros name other Hform Hne Hin Hid Hurl.
        revert Hname. rewrite Hform. unfold updateActivity_urlName.
        destruct name as [|c s]; [contradiction|].
        destruct (isValidActivityName (cleanActivityName (String c s))); simpl; [|discriminate].
        destruct (hasRouteConflict (cleanActivityName (String c s))); [discriminate|].
        destruct (includes _ (cleanActivityName (String c s))) eqn:Hinc; [discriminate|].
        intros _.
        assert (includes (map urlName (filter (fun a => id a <> activityId)
                                         existingActivities))
                         (cleanActivityName (String c s)) = true) as Habs.
        { apply includes_true, other_names_spec. exists other. auto. }
        congruence.
      * intros status json ->. reflexivity.
      * intros status success message -> Hmsg. simpl.
        destruct message as [|c s]; [contradiction|].
        destruct success; reflexivity.
Qed.

(** The message alone does not tell the two apart: a server that refuses
    the PATCH with the same words makes [updateActivity] throw the same
    error, after the request was sent. *)
Example update_rethrows_the_servers_error :
  @updateActivity sample_urlUtils "act2" (rename_form (Some "fresh"))
    (inr [new_activity; second_activity])
    (server_refuses "Activity URL name already exists")
  = (Some ("act2",
           {| ActivityData.title := "Retro"; ActivityData.mapQuestion := "How did it go?";
              ActivityData.xAxis := Axis.mk "x" 0%float 1%float;
              ActivityData.yAxis := Axis.mk "y" 0%float 1%float;
              ActivityData.commentQuestion := "Why?";
              ActivityData.urlName := Some "fresh" |}),
     inl (Error "Activity URL name already exists"))
  /\ @updateActivity sample_urlUtils "act2" (rename_form (Some "demo"))
       (inr [new_activity; second_activity])
       (server_refuses "Activity URL name already exists")
     = (None, inl (Error "Activity URL name already exists"))
  /\ fst (@updateActivity sample_urlUtils "act2" (rename_form (Some "retro"))
            (inr [new_activity; second_activity]) (server_refuses "offline"))
     <> None.
Proof. split; [reflexivity|]. split; [reflexivity|]. discriminate. Qed.

(** [createActivity] with a URL name in the form does not look at the
    existing activities: a name that [updateActivity] would refuse as
    already existing is posted as it is, whatever [getActivities] would
    have returned. *)
Theorem create_posts_names_update_refuses `{UrlUtils} (activityId formTitle : string)
    (formUrlName : option string) (existingActivities : list Activity)
    (getActivities : Thrown + list Activity) :
  updateActivity_urlName activityId formUrlName (inr existingActivities)
  = inl (Error "Activity URL name already exists") ->
  exists name other,
    createActivity_urlName formTitle formUrlName getActivities = inr name
    /\ other ∈ existingActivities
    /\ urlName other = name.
Proof.
  unfold updateActivity_urlName, createActivity_urlName.
  destruct formUrlName as [[|c s]|]; try discriminate.
  set (name := String c s).
  destruct (isValidActivityName (cleanActivityName name)); simpl; [|discriminate].
  destruct (hasRouteConflict (cleanActivityName name)); [discriminate|].
  destruct (includes _ (cleanActivityName name)) eqn:Hinc.
  - intros _.
    apply includes_true, other_names_spec in Hinc as (other & Hin & _ & Hname).
    exists (cleanActivityName name), other. repeat split; assumption.
  - destruct (cleanActivityName name); discriminate.
Qed.

Lemma create_posts_names_update_refuses_witness :
  exists name other,
    @createActivity_urlName sample_urlUtils "Retro again" (Some "retro")
      (inl (Rejected "offline")) = inr name
    /\ other ∈ [new_activity; second_activity]
    /\ urlName other = name.
Proof.
  apply (@create_posts_names_update_refuses sample_urlUtils "act1" "Retro again"
           (Some "retro") [new_activity; second_activity] (inl (Rejected "offline"))).
  reflexivity.
Defined.

(** ** The user's own comment *)

Lemma find_insert_rejected {A : Type} (p : A -> bool) (l : list A) (i : nat) (old v : A) :
  l !! i = Some old -> p old = false -> p v = false ->
  find p (<[i := v]> l) = find p l.
Proof.
  revert i. induction l as [|a l IH]; intros [|i] Hi Hold Hv; simpl in *; try discriminate.
  - injection Hi as ->. rewrite Hold, Hv. reflexivity.
  - destruct (p a); [reflexivity|]. apply IH; assumption.
Qed.

Lemma find_insert_first {A : Type} (p : A -> bool) (l : list A) (i : nat) (v : A) :
  i < length l ->
  (forall j c, j < i -> l !! j = Some c -> p c = false) ->
  p v = true ->
  find p (<[i := v]> l) = Some v.
Proof.
  revert i. induction l as [|a l IH]; intros [|i] Hi Hfirst Hv; simpl in *; try lia.
  - rewrite Hv. reflexivity.
  - rewrite (Hfirst 0 a) by (lia || reflexivity).
    apply IH; [lia | | exact Hv].
    intros j c Hj Hc. apply (Hfirst (S j) c); [lia | exact Hc].
Qed.

Lemma find_upsert {A : Type} (key : A -> string) (userId : string) (l : list A) (v : A) :
  find (fun c => bool_decide (key c = userId)) (filter (fun c => key c <> key v) l ++ [v])
  = if bool_decide (key v = userId) then Some v
    else find (fun c => bool_decide (key c = userId)) l.
Proof.
  rewrite find_app. case_bool_decide as Hown.
  - rewrite find_none; [simpl; rewrite bool_decide_eq_true_2 by exact Hown; reflexivity|].
    intros c Hc. apply list_elem_of_filter in Hc as [Hne _].
    apply bool_decide_eq_false. congruence.
  - rewrite find_filter_rejected.
    + destruct (find _ l); [reflexivity|].
      simpl. rewrite bool_decide_eq_false_2 by exact Hown. reflexivity.
    + intros c _ Hc. apply bool_decide_eq_false. intros Hcu. apply Hc.
      intros Heq. apply Hown. congruence.
Qed.

(** With unique keys, nothing before an entry has the entry's key. *)
Lemma NoDup_key_before {A : Type} (key : A -> string) (l : list A) (i j : nat) (c d : A) :
  NoDup (map key l) -> l !! i = Some c -> l !! j = Some d -> j < i -> key d <> key c.
Proof.
  intros Hnd Hi Hj Hlt Heq. rewrite map_fmap in Hnd.
  assert (j = i); [|lia].
  apply (NoDup_lookup _ _ _ (key c) Hnd).
  - rewrite list_lookup_fmap, Hj. simpl. congruence.
  - rewrite list_lookup_fmap, Hi. reflexivity.
Qed.

Lemma handle_keeps_comment_in_sync (userId : string) (e : Event) (st : PageState) :
  not_a_vote e -> comment_in_sync userId st -> comment_in_sync userId (handle userId e st).
Proof.
  intros Hvote (a & Ha & Hnd & Hc). unfold comment_in_sync.
  destruct e as [r|c|c|p|pid]; [| |contradiction| |].
  - eexists. unfold handle. simpl updater. rewrite Ha.
    split; [case_bool_decide; reflexivity|]. split; [exact Hnd|].
    case_bool_decide; exact Hc.
  - destruct (comment_added_cases c a) as [[_ Heq] | (i & old & Hi & Hold & _ & Heq)];
      eexists; unfold handle; simpl updater; rewrite Ha, Heq;
      (split; [case_bool_decide; reflexivity|]).
    + split; [apply NoDup_upsert, Hnd|].
      unfold comment_of_user. simpl comments.
      rewrite (find_upsert Comment.userId).
      case_bool_decide; [reflexivity | exact Hc].
    + apply same_user_and_text_true in Hold as [Hu _].
      split; [simpl; rewrite (map_key_insert_same Comment.userId _ _ old) by assumption;
              exact Hnd|].
      unfold comment_of_user. simpl comments.
      case_bool_decide as Hown; simpl.
      * rewrite find_insert_first; [reflexivity | eapply lookup_lt_Some, Hi | |].
        -- intros j d Hj Hd. apply bool_decide_eq_false.
           rewrite <- Hown, <- Hu.
           apply (NoDup_key_before Comment.userId (comments a) i j old d); assumption.
        -- apply bool_decide_eq_true. exact Hown.
      * rewrite (find_insert_rejected _ _ _ old); [exact Hc | exact Hi | |].
        -- apply bool_decide_eq_false. congruence.
        -- apply bool_decide_eq_false. exact Hown.
  - eexists. unfold handle. simpl updater. rewrite Ha.
    split; [reflexivity|]. split; [exact Hnd | exact Hc].
  - eexists. unfold handle. simpl updater. rewrite Ha.
    split; [reflexivity|]. split; [exact Hnd | exact Hc].
Qed.

Lemma handle_all_keeps_comment_in_sync (userId : string) (es : list Event) (st : PageState) :
  Forall not_a_vote es ->
  comment_in_sync userId st -> comment_in_sync userId (handle_all userId es st).
Proof.
  unfold handle_all. intros Hes. revert st.
  induction Hes as [|e es He _ IH]; intros st Hst; [exact Hst|].
  simpl. apply IH, handle_keeps_comment_in_sync; assumption.
Qed.

(** Once a snapshot with at most one comment per user is loaded on a page
    that had no comment of the user yet, [userComment] follows the activity
    through every sequence of events without a vote: it is the comment of
    the user that the activity holds.  ([comment_voted] writes the activity
    only, so after a vote on the user's own comment [userComment] keeps the
    count from before.) *)
Theorem own_comment_follows_activity (userId : string) (activityData : Activity)
    (es : list Event) (p : Page) :
  userComment (state p) = None ->
  NoDup (map Comment.userId (comments activityData)) ->
  Forall not_a_vote es ->
  let st := handle_all userId es (state (loadActivity userId (Some activityData) p)) in
  exists a, activity st = Some a /\ userComment st = comment_of_user a userId.
Proof.
  intros Hfresh Hnd Hes.
  destruct (handle_all_keeps_comment_in_sync userId es
              (state (loadActivity userId (Some activityData) p)) Hes)
    as (a & Ha & _ & Hc).
  - exists activityData. split; [reflexivity|]. split; [exact Hnd|]. simpl.
    destruct (comment_of_user activityData userId); [reflexivity | exact Hfresh].
  - exists a. split; assumption.
Qed.

Lemma own_comment_follows_activity_witness :
  exists a,
    activity (handle_all "a" [comment_added (comment_c1 (Some 3)); participant_left "b"]
                (state (loadActivity "a" (Some two_commenters) initial_page))) = Some a
    /\ userComment (handle_all "a" [comment_added (comment_c1 (Some 3)); participant_left "b"]
                (state (loadActivity "a" (Some two_commenters) initial_page)))
       = comment_of_user a "a".
Proof.
  apply (own_comment_follows_activity "a" two_commenters
           [comment_added (comment_c1 (Some 3)); participant_left "b"] initial_page).
  - reflexivity.
  - apply two_commenters_one_per_user.
  - repeat constructor.
Defined.

(** A vote on the user's own comment reaches the activity and not
    [userComment]. *)
Example vote_leaves_userComment :
  let st := handle "a" (comment_voted (comment_c1 (Some 5)))
              (state (loadActivity "a" (Some voted_three_times) initial_page)) in
  (comments <$> activity st) = Some [comment_c1 (Some 5)]
  /\ userComment st = Some (comment_c1 (Some 3)).
Proof. split; reflexivity. Qed.
